(** * Hecate UI: the concept table's filter-and-collapse engine

    A shallow embedding of [ui/src/components/ConceptTable.tsx] (and of the
    filter-option code it shares with [ConceptTableCore]): the child filter
    [applyFiltersToChildren], the projection [filterData], the cell renderers
    [renderTagsForField] and [renderCellValue], the id column and the filter
    option index [getFilterSelector] / [createCountForFilter].

    JavaScript values are modelled as follows.
    - a [string[]] is a [list string]; reading [arr[0]] is [hd_error arr], with
      [None] for JavaScript's [undefined] (an out-of-range read does not throw);
    - an optional property ([children?], [concept_id?], the five members of
      [FilterState]) is an [option];
    - a [number] that holds an identifier is a [Z], a score is a [Q];
    - React state is passed explicitly: every hook callback takes the state
      it closes over as arguments. *)

From Stdlib Require Import List String Ascii Bool ZArith QArith Lia.
From Stdlib Require Import Sorted Permutation DecimalString.
Import ListNotations.
Local Close Scope Q_scope.
Local Open Scope nat_scope.
Local Open Scope string_scope.
Local Open Scope list_scope.

Set Implicit Arguments.

(** ** JavaScript primitives used by the component *)

Module Js.

(** [Array.prototype.includes] on a [string[]], searched for the result of
    an index read: [undefined] is never an element of a [string[]]. *)
Definition includes (arr : list string) (v : option string) : bool :=
  match v with
  | Some s => existsb (String.eqb s) arr
  | None => false
  end.

(** Truthiness of a [string | undefined]: [Boolean(v)]. *)
Definition truthy (v : option string) : bool :=
  match v with
  | Some s => negb (String.eqb s "")
  | None => false
  end.

(** Truthiness of a [number | undefined] that holds an integer. *)
Definition truthyNumber (n : option Z) : bool :=
  match n with
  | Some z => negb (Z.eqb z 0)
  | None => false
  end.

(** [String(n)] for a non-negative integer. *)
Definition numberToString (n : nat) : string :=
  NilZero.string_of_uint (Nat.to_uint n).

(** Truthiness of an array: every object is truthy, the empty array
    included. *)
Definition truthyArray (arr : list string) : bool := true.

(** SameValueZero on [string | undefined], the equality of [Set]. *)
Definition sameValueZero (a b : option string) : bool :=
  match a, b with
  | Some x, Some y => String.eqb x y
  | None, None => true
  | _, _ => false
  end.

(** [set.add(v)]: a value already present keeps its place. *)
Definition setAdd (set : list (option string)) (v : option string)
  : list (option string) :=
  if existsb (sameValueZero v) set then set else set ++ [v].

(** [[...new Set(arr)]]: the elements in order of first insertion. *)
Definition newSet (arr : list (option string)) : list (option string) :=
  fold_left setAdd arr [].

(** The property key a [string | undefined] is converted to. *)
Definition propertyKey (v : option string) : string :=
  match v with
  | Some s => s
  | None => "undefined"
  end.

(** A property key that is an array index: the canonical decimal form of
    an integer below 2^32 - 1. *)
Definition arrayIndex (key : string) : option N :=
  match NilZero.uint_of_string key with
  | Some u =>
      let n := N.of_uint u in
      if String.eqb (NilZero.string_of_uint (N.to_uint n)) key
         && N.ltb n 4294967295
      then Some n else None
  | None => None
  end.

(** The names an object literal inherits from [Object.prototype]; reading
    one of them from [{}] does not give [undefined]. *)
Definition objectPrototypeKeys : list string :=
  ["constructor"; "__proto__"; "__defineGetter__"; "__defineSetter__";
   "__lookupGetter__"; "__lookupSetter__"; "hasOwnProperty";
   "isPrototypeOf"; "propertyIsEnumerable"; "toLocaleString"; "toString";
   "valueOf"].

Definition plainKey (key : string) : bool :=
  negb (existsb (String.eqb key) objectPrototypeKeys).

(** [String(f)] for a built-in function [f] of the given name, as V8 and
    JavaScriptCore print it (other engines differ in white space). *)
Definition nativeFunctionSource (name : string) : string :=
  "function " ++ name ++ "() { [native code] }".

(** What reading [key] gives on an object literal that has no own property
    [key]: [undefined], a function of [Object.prototype], or, for
    [__proto__], the prototype object itself. *)
Inductive Inherited : Type :=
| NotInherited
| InheritedFunction (source : string)
| InheritedPrototype.

Definition inherited (key : string) : Inherited :=
  if String.eqb key "__proto__" then InheritedPrototype
  else if String.eqb key "constructor"
       then InheritedFunction (nativeFunctionSource "Object")
  else if existsb (String.eqb key) objectPrototypeKeys
       then InheritedFunction (nativeFunctionSource key)
  else NotInherited.

End Js.

(** ** Data model *)

(** [keyof FilterState]: the five filterable fields. *)
Inductive FilterField : Type :=
| ConceptClassId   (* "concept_class_id" *)
| DomainId         (* "domain_id" *)
| InvalidReason    (* "invalid_reason" *)
| StandardConcept  (* "standard_concept" *)
| VocabularyId.    (* "vocabulary_id" *)

Definition allFields : list FilterField :=
  [ConceptClassId; DomainId; InvalidReason; StandardConcept; VocabularyId].

(** Modelled from the spec: the declaration of [ConceptRow] in
    [ui/src/@types/data-source] is not part of the sources at hand; its shape
    is the one the spec's data model gives and the component uses: an
    optional [concept_id], a name and a code, one [string[]] per filterable
    field, a score and an optional list of child rows. *)
#[warnings="-register-all"]
Inductive ConceptRow : Type := mkConceptRow {
  concept_id : option Z;
  concept_name : string;
  concept_code : string;
  concept_class_id : list string;
  domain_id : list string;
  invalid_reason : list string;
  standard_concept : list string;
  vocabulary_id : list string;
  score : option Q;
  children : option (list ConceptRow)
}.

(** [row[field]] for a [field : FilterField]. *)
Definition get (field : FilterField) (row : ConceptRow) : list string :=
  match field with
  | ConceptClassId => concept_class_id row
  | DomainId => domain_id row
  | InvalidReason => invalid_reason row
  | StandardConcept => standard_concept row
  | VocabularyId => vocabulary_id row
  end.

(** [{ ...row, children: cs }] *)
Definition withChildren (row : ConceptRow) (cs : list ConceptRow) : ConceptRow :=
  {| concept_id := concept_id row;
     concept_name := concept_name row;
     concept_code := concept_code row;
     concept_class_id := concept_class_id row;
     domain_id := domain_id row;
     invalid_reason := invalid_reason row;
     standard_concept := standard_concept row;
     vocabulary_id := vocabulary_id row;
     score := score row;
     children := Some cs |}.

(** [interface FilterState]: every member is an optional [string[]]. *)
Record FilterState : Type := mkFilterState {
  fs_concept_class_id : option (list string);
  fs_domain_id : option (list string);
  fs_invalid_reason : option (list string);
  fs_standard_concept : option (list string);
  fs_vocabulary_id : option (list string)
}.

(** [filters[field]] *)
Definition selection (filters : FilterState) (field : FilterField)
  : option (list string) :=
  match field with
  | ConceptClassId => fs_concept_class_id filters
  | DomainId => fs_domain_id filters
  | InvalidReason => fs_invalid_reason filters
  | StandardConcept => fs_standard_concept filters
  | VocabularyId => fs_vocabulary_id filters
  end.

(** [{ ...filters, [field]: sel }] *)
Definition withSelection (field : FilterField) (sel : option (list string))
  (filters : FilterState) : FilterState :=
  match field with
  | ConceptClassId =>
      mkFilterState sel (fs_domain_id filters) (fs_invalid_reason filters)
        (fs_standard_concept filters) (fs_vocabulary_id filters)
  | DomainId =>
      mkFilterState (fs_concept_class_id filters) sel (fs_invalid_reason filters)
        (fs_standard_concept filters) (fs_vocabulary_id filters)
  | InvalidReason =>
      mkFilterState (fs_concept_class_id filters) (fs_domain_id filters) sel
        (fs_standard_concept filters) (fs_vocabulary_id filters)
  | StandardConcept =>
      mkFilterState (fs_concept_class_id filters) (fs_domain_id filters)
        (fs_invalid_reason filters) sel (fs_vocabulary_id filters)
  | VocabularyId =>
      mkFilterState (fs_concept_class_id filters) (fs_domain_id filters)
        (fs_invalid_reason filters) (fs_standard_concept filters) sel
  end.

(** [useState<FilterState>({})], also what [clearFilters] resets to. *)
Definition defaultFilterState : FilterState :=
  mkFilterState None None None None None.

(** [filters[field]?.length] is truthy: the field carries a constraint. *)
Definition active (sel : option (list string)) : bool :=
  match sel with
  | Some (_ :: _) => true
  | _ => false
  end.

(** ** The predicate and the projection *)

(** [filters.f?.length && !filters.f.includes(child.f[0])] *)
Definition rejects (sel : option (list string)) (values : list string) : bool :=
  match sel with
  | None | Some [] => false
  | Some arr => negb (Js.includes arr (hd_error values))
  end.

(** The callback of [children.filter] in [applyFiltersToChildren]; the spec
    names it [matches]. *)
Definition acceptsChild (filters : FilterState) (child : ConceptRow) : bool :=
  if rejects (fs_concept_class_id filters) (concept_class_id child) then false
  else if rejects (fs_domain_id filters) (domain_id child) then false
  else if rejects (fs_invalid_reason filters) (invalid_reason child) then false
  else if rejects (fs_standard_concept filters) (standard_concept child) then false
  else if rejects (fs_vocabulary_id filters) (vocabulary_id child) then false
  else true.

Definition applyFiltersToChildren (children : list ConceptRow)
  (filters : FilterState) : list ConceptRow :=
  filter (acceptsChild filters) children.

(** The callback of [originalData.map] in [filterData]. *)
Definition filterRow (currentFilters : FilterState) (row : ConceptRow)
  : ConceptRow :=
  match children row with
  | Some cs =>
      if Nat.ltb 1 (List.length cs) then
        let acceptedChildren := applyFiltersToChildren cs currentFilters in
        match acceptedChildren with
        | [only] => only
        | _ => withChildren row acceptedChildren
        end
      else row
  | None => row
  end.

(** [filterData]: the list handed to [setSelected]; the spec's [project]. *)
Definition filterData (originalData : list ConceptRow)
  (currentFilters : FilterState) : list ConceptRow :=
  map (filterRow currentFilters) originalData.

(** ** Cell rendering *)

(** What a cell renderer hands to React. *)
Inductive Cell : Type :=
| CellField (values : list string)        (* [row[field]], the row's own array *)
| CellScalar (value : option string)      (* a [string], or [undefined] *)
| CellTags (tags : list (option string)). (* one [<Tag>] per element *)

(** [r[field] ? r[field][0] : ""] *)
Definition firstValue (field : FilterField) (r : ConceptRow) : option string :=
  if Js.truthyArray (get field r) then hd_error (get field r) else Some "".

(** The [values] array of [renderTagsForField]. *)
Definition tagValues (filtered : list ConceptRow) (field : FilterField)
  : list (option string) :=
  filter Js.truthy (Js.newSet (map (firstValue field) filtered)).

Definition renderTagsForField (filtered : list ConceptRow) (field : FilterField)
  : Cell :=
  CellTags (tagValues filtered field).

(** [applyFilterForConceptsWithChildren]: [filteredInfo] is React state that
    always holds an object, so the [!filteredInfo] exit is never taken. *)
Definition applyFilterForConceptsWithChildren (currentFilters : FilterState)
  (children : list ConceptRow) : list ConceptRow :=
  applyFiltersToChildren children currentFilters.

Definition renderCellValue (currentFilters : FilterState) (row : ConceptRow)
  (field : FilterField) : Cell :=
  match children row with
  | Some cs =>
      let filtered := applyFilterForConceptsWithChildren currentFilters cs in
      match filtered with
      | [only] => CellScalar (firstValue field only)
      | _ => renderTagsForField filtered field
      end
  | None => CellField (get field row)
  end.

(** What the id column hands to React. *)
Inductive IdCell : Type :=
| IdValue (value : option Z)
| IdText (text : string).

(** [record.children?.length + " concepts"] *)
Definition memberCountLabel (record : ConceptRow) : string :=
  match children record with
  | Some cs => Js.numberToString (List.length cs) ++ " concepts"
  | None => "undefined concepts"
  end.

(** The [render] of the id column; the table passes
    [value = record.concept_id]. *)
Definition renderId (value : option Z) (record : ConceptRow) : IdCell :=
  if Js.truthyNumber (concept_id record) then IdValue value
  else IdText (memberCountLabel record).

Definition idCell (record : ConceptRow) : IdCell :=
  renderId (concept_id record) record.

(** ** Filter option index *)

Record FilterOption : Type := mkFilterOption {
  text : string;
  value : string
}.

(** A value of the [counts] object: a number, or the string a count turns
    into when its key names a member of [Object.prototype]. *)
Inductive Count : Type :=
| CountNumber (n : nat)
| CountText (s : string).

(** [(x || 0) + 1] for the own value [x] of a key. *)
Definition increment (x : Count) : Count :=
  match x with
  | CountNumber n => CountNumber (n + 1)
  | CountText s => if String.eqb s "" then CountNumber 1 else CountText (s ++ "1")
  end.

(** [`${count}`] *)
Definition countText (x : Count) : string :=
  match x with
  | CountNumber n => Js.numberToString n
  | CountText s => s
  end.

Section FilterOptions.

(** [String.prototype.localeCompare], reduced to the sign of its result. *)
Variable localeCompare : string -> string -> comparison.

Fixpoint insertSorted (x : string) (sorted : list string) : list string :=
  match sorted with
  | [] => [x]
  | y :: rest =>
      match localeCompare x y with
      | Gt => y :: insertSorted x rest
      | _ => x :: sorted
      end
  end.

(** A stable sort of defined values by [localeCompare]. *)
Definition sortStrings (l : list string) : list string :=
  fold_right insertSorted [] l.

Definition definedValues (l : list (option string)) : list string :=
  flat_map (fun v => match v with Some s => [s] | None => [] end) l.

Definition undefinedCount (l : list (option string)) : nat :=
  List.length (filter (fun v => match v with None => true | Some _ => false end) l).

(** [concepts.sort((a, b) => a.localeCompare(b))]: [undefined] elements are
    moved to the end without being handed to the comparator. *)
Definition arraySort (concepts : list (option string)) : list (option string) :=
  map Some (sortStrings (definedValues concepts))
    ++ repeat None (undefinedCount concepts).

(** [acc[concept] = (acc[concept] || 0) + 1] on an object literal whose own
    keys are kept in creation order.  A key the object does not own yet is
    read through [Object.prototype]: an inherited function makes the count
    the function's source followed by "1", and the assignment to
    [__proto__] of what is not an object stores nothing. *)
Fixpoint bump (key : string) (acc : list (string * Count))
  : list (string * Count) :=
  match acc with
  | [] =>
      match Js.inherited key with
      | Js.NotInherited => [(key, CountNumber 1)]
      | Js.InheritedFunction source => [(key, CountText (source ++ "1"))]
      | Js.InheritedPrototype => []
      end
  | (k, x) :: rest =>
      if String.eqb k key then (k, increment x) :: rest
      else (k, x) :: bump key rest
  end.

(** The [counts] object of [createCountForFilter]. *)
Definition countConcepts (concepts : list (option string))
  : list (string * Count) :=
  fold_left (fun acc concept => bump (Js.propertyKey concept) acc) concepts [].

Fixpoint insertIndex (V : Type) (e : N * (string * V))
  (sorted : list (N * (string * V))) : list (N * (string * V)) :=
  match sorted with
  | [] => [e]
  | y :: rest =>
      if N.leb (fst e) (fst y) then e :: sorted else y :: insertIndex e rest
  end.

Definition indexEntries (V : Type) (o : list (string * V))
  : list (N * (string * V)) :=
  flat_map (fun e => match Js.arrayIndex (fst e) with
                     | Some n => [(n, e)]
                     | None => []
                     end) o.

Definition isIndexKey (V : Type) (e : string * V) : bool :=
  match Js.arrayIndex (fst e) with Some _ => true | None => false end.

(** [Object.entries(o)]: array-index keys in ascending numeric order, then
    the other keys in creation order. *)
Definition objectEntries (V : Type) (o : list (string * V)) : list (string * V) :=
  map snd (fold_right (@insertIndex V) [] (indexEntries o))
    ++ filter (fun e => negb (isIndexKey e)) o.

(** The callback of [Object.entries(counts).map]. *)
Definition toFilterOption (entry : string * Count) : FilterOption :=
  {| text := fst entry ++ " (" ++ countText (snd entry) ++ ")";
     value := fst entry |}.

Definition createCountForFilter (concepts : list (option string))
  : list FilterOption :=
  map toFilterOption (objectEntries (countConcepts concepts)).

(** The [concepts] array [getFilterSelector] fills, before it is sorted. *)
Definition collectConcepts (field : FilterField) (rows : list ConceptRow)
  : list (option string) :=
  flat_map (fun row =>
              match children row with
              | Some cs => map (fun child => hd_error (get field child)) cs
              | None => [hd_error (get field row)]
              end) rows.

Definition getFilterSelector (field : FilterField) (rows : list ConceptRow)
  : list FilterOption :=
  createCountForFilter (arraySort (collectConcepts field rows)).

End FilterOptions.

(** The same index as [ConceptTableCore] builds it: a row or child whose
    field is falsy is skipped (an array never is). *)
Module Core.

Definition pushIfPresent (field : FilterField) (r : ConceptRow)
  : list (option string) :=
  if Js.truthyArray (get field r) then [hd_error (get field r)] else [].

Definition collectConcepts (field : FilterField) (rows : list ConceptRow)
  : list (option string) :=
  flat_map (fun row =>
              match children row with
              | Some cs => flat_map (pushIfPresent field) cs
              | None => pushIfPresent field row
              end) rows.

Definition getFilterSelector (localeCompare : string -> string -> comparison)
  (field : FilterField) (rows : list ConceptRow) : list FilterOption :=
  createCountForFilter (arraySort localeCompare (collectConcepts field rows)).

End Core.

(** ** Specification-side definitions

    These follow the words of the specification; the theorems below compare
    them with the definitions translated from the component. *)

(** Duplicates removed, every value kept where it occurs first. *)
Fixpoint firstOccurrencesBy (A : Type) (eqb : A -> A -> bool) (l : list A)
  : list A :=
  match l with
  | [] => []
  | x :: rest => x :: filter (fun y => negb (eqb x y)) (firstOccurrencesBy eqb rest)
  end.

Definition firstOccurrences : list string -> list string :=
  firstOccurrencesBy String.eqb.

(** The values a child list shows for a field, as the specification lists
    them: the first value of each child, empty and missing values left out,
    every value kept at its first occurrence only. *)
Definition nonEmptyFirstValues (field : FilterField) (rows : list ConceptRow)
  : list string :=
  flat_map (fun r => match hd_error (get field r) with
                     | Some s => if String.eqb s "" then [] else [s]
                     | None => []
                     end) rows.

Definition distinctNonEmpty (field : FilterField) (rows : list ConceptRow)
  : list string :=
  firstOccurrences (nonEmptyFirstValues field rows).

(** Occurrences counted per distinct value: one [(value, count)] pair per
    value, in order of first occurrence. *)
Definition tally (keys : list string) : list (string * nat) :=
  map (fun k => (k, count_occ string_dec keys k)) (firstOccurrences keys).

(** Counts that are numbers, as entries of the [counts] object. *)
Definition numbered (entries : list (string * nat)) : list (string * Count) :=
  map (fun e => (fst e, CountNumber (snd e))) entries.

(** The rows whose values the index visits: every leaf and every child of
    every group. *)
Definition visitedRows (rows : list ConceptRow) : list ConceptRow :=
  flat_map (fun row => match children row with
                       | Some cs => cs
                       | None => [row]
                       end) rows.

(** The index as the specification words it: the visited values, empty and
    missing ones ignored, sorted, counted per distinct value. *)
Definition specFilterIndex (compare : string -> string -> comparison)
  (field : FilterField) (rows : list ConceptRow) : list (string * nat) :=
  tally (sortStrings compare (nonEmptyFirstValues field (visitedRows rows))).

(** The order a comparator induces: [a] may stand before [b]. *)
Definition notAfter (compare : string -> string -> comparison) (a b : string)
  : Prop :=
  compare a b <> Gt.

(** The rule of the specification's step 2 applied to a group of any size:
    one match is promoted, otherwise the matches become the children. *)
Definition uniformGroupRule (filters : FilterState) (row : ConceptRow)
  : ConceptRow :=
  match children row with
  | Some cs =>
      match applyFiltersToChildren cs filters with
      | [only] => only
      | matched => withChildren row matched
      end
  | None => row
  end.

(** What the slot of an input row may hold after the projection. *)
Inductive SlotOutcome (filters : FilterState) (row : ConceptRow)
  : ConceptRow -> Prop :=
| PassedThrough :
    (forall cs, children row = Some cs -> List.length cs <= 1) ->
    SlotOutcome filters row row
| Promoted (cs : list ConceptRow) (child : ConceptRow) :
    children row = Some cs -> 1 < List.length cs ->
    In child cs -> acceptsChild filters child = true ->
    applyFiltersToChildren cs filters = [child] ->
    SlotOutcome filters row child
| Narrowed (cs : list ConceptRow) :
    children row = Some cs -> 1 < List.length cs ->
    List.length (applyFiltersToChildren cs filters) <> 1 ->
    SlotOutcome filters row (withChildren row (applyFiltersToChildren cs filters)).

(** Every constraint of a filter state is empty or absent. *)
Definition noConstraint (filters : FilterState) : Prop :=
  forall field, active (selection filters field) = false.

(** The rows of a two-level forest: the children of a group are leaves. *)
Definition childrenAreLeaves (row : ConceptRow) : Prop :=
  forall cs c, children row = Some cs -> In c cs -> children c = None.

(** ** Sample data: the "Diabetes" group of the specification's scenarios *)

Module Sample.

Definition leaf (id : Z) (vocabulary domain : string) : ConceptRow :=
  {| concept_id := Some id;
     concept_name := "Diabetes";
     concept_code := "";
     concept_class_id := ["Clinical Finding"];
     domain_id := [domain];
     invalid_reason := ["Valid"];
     standard_concept := ["Standard"];
     vocabulary_id := [vocabulary];
     score := Some (Qmake 9 10);
     children := None |}.

Definition snomed : ConceptRow := leaf 1 "SNOMED" "Condition".
Definition icd10 : ConceptRow := leaf 2 "ICD10CM" "Condition".
Definition icd10obs : ConceptRow := leaf 3 "ICD10CM" "Observation".

Definition group (cs : list ConceptRow) : ConceptRow :=
  {| concept_id := None;
     concept_name := "Diabetes";
     concept_code := "";
     concept_class_id := [];
     domain_id := [];
     invalid_reason := [];
     standard_concept := [];
     vocabulary_id := [];
     score := None;
     children := Some cs |}.

Definition diabetes : ConceptRow := group [snomed; icd10].
Definition diabetes3 : ConceptRow := group [snomed; icd10; icd10obs].
Definition singleton : ConceptRow := group [icd10].

Definition onlyVocabulary (sel : list string) : FilterState :=
  withSelection VocabularyId (Some sel) defaultFilterState.

(** A child whose vocabulary sequence holds no value at all. *)
Definition noVocabulary : ConceptRow :=
  {| concept_id := Some 4%Z;
     concept_name := "Diabetes";
     concept_code := "";
     concept_class_id := ["Clinical Finding"];
     domain_id := ["Condition"];
     invalid_reason := ["Valid"];
     standard_concept := ["Standard"];
     vocabulary_id := [];
     score := None;
     children := None |}.

(** A leaf whose vocabulary is the empty string. *)
Definition emptyVocabulary : ConceptRow := leaf 5 "" "Condition".

(** Code-point order, standing in for a collation. *)
Definition codePointCompare : string -> string -> comparison := String.compare.

End Sample.

(** ** The filter hook and the table state *)

Module Text.

Definition comma : ascii := ","%char.

(** [s.split(",")] *)
Fixpoint split (s : string) : list string :=
  match s with
  | EmptyString => [EmptyString]
  | String c rest =>
      if Ascii.eqb c comma then EmptyString :: split rest
      else match split rest with
           | piece :: pieces => String c piece :: pieces
           | [] => [String c EmptyString]
           end
  end.

(** [arr.toString()] on a [string[]], that is [arr.join(",")]. *)
Fixpoint join (arr : list string) : string :=
  match arr with
  | [] => EmptyString
  | x :: rest =>
      match rest with
      | [] => x
      | _ :: _ => x ++ String comma (join rest)
      end
  end.

Fixpoint hasComma (s : string) : bool :=
  match s with
  | EmptyString => false
  | String c rest => Ascii.eqb c comma || hasComma rest
  end.

End Text.

Module Hook.

(** The [filters] object the table hands to [onChange], and the
    [filteredInfo] state: per filter column the selected option values, or
    [null].  The option values of this table are strings. *)
Record Filters : Type := mkFilters {
  concept_class_id : option (list string);
  domain_id : option (list string);
  invalid_reason : option (list string);
  standard_concept : option (list string);
  vocabulary_id : option (list string)
}.

Definition filterValue (filters : Filters) (field : FilterField)
  : option (list string) :=
  match field with
  | ConceptClassId => concept_class_id filters
  | DomainId => domain_id filters
  | InvalidReason => invalid_reason filters
  | StandardConcept => standard_concept filters
  | VocabularyId => vocabulary_id filters
  end.

(** The state of [useConceptFilters] the claims' code reads. *)
Record State : Type := mkState {
  filteredInfo : Filters;
  currentFilters : FilterState
}.

(** [useState<Filters>({})] and [useState<FilterState>({})] *)
Definition initial : State :=
  {| filteredInfo := mkFilters None None None None None;
     currentFilters := defaultFilterState |}.

Definition clearFilters (st : State) : State :=
  {| filteredInfo := mkFilters None None None None None;
     currentFilters := defaultFilterState |}.

(** [filters.f?.toString().split(",")] *)
Definition toSelection (v : option (list string)) : option (list string) :=
  match v with
  | Some arr => Some (Text.split (Text.join arr))
  | None => None
  end.

Definition handleChange (filters : Filters) (st : State) : State :=
  {| filteredInfo := filters;
     currentFilters :=
       {| fs_concept_class_id := toSelection (concept_class_id filters);
          fs_domain_id := toSelection (domain_id filters);
          fs_invalid_reason := toSelection (invalid_reason filters);
          fs_standard_concept := toSelection (standard_concept filters);
          fs_vocabulary_id := toSelection (vocabulary_id filters) |} |}.

(** [Object.values(filteredInfo).some((filter) => filter && filter.length > 0)] *)
Definition hasActiveFilters (filteredInfo : Filters) : bool :=
  existsb (fun field => active (filterValue filteredInfo field)) allFields.

End Hook.

Module Table.

(** The state of [ConceptTable] the projection reads and writes. *)
Record State : Type := mkState {
  hook : Hook.State;
  originalData : list ConceptRow;
  selected : list ConceptRow
}.

Definition resetToOriginalData (st : State) : State :=
  {| hook := hook st;
     originalData := originalData st;
     selected := originalData st |}.

Definition modifiedClearFilters (st : State) : State :=
  resetToOriginalData
    {| hook := Hook.clearFilters (hook st);
       originalData := originalData st;
       selected := selected st |}.

(** [onChange] of the table. *)
Definition handleChange (filters : Hook.Filters) (st : State) : State :=
  {| hook := Hook.handleChange filters (hook st);
     originalData := originalData st;
     selected := selected st |}.

(** The effect that runs [filterData] after the state has changed. *)
Definition filterDataEffect (st : State) : State :=
  {| hook := hook st;
     originalData := originalData st;
     selected := filterData (originalData st) (Hook.currentFilters (hook st)) |}.

End Table.

(** The cell renderer of [ConceptTableCore]: the children are never
    filtered, a leaf shows its first value. *)
Module CoreCells.

Definition renderCellValue (row : ConceptRow) (field : FilterField) : Cell :=
  match children row with
  | Some cs => renderTagsForField cs field
  | None => CellScalar (firstValue field row)
  end.

End CoreCells.

(** The selected values of a field, none when the selection is absent. *)
Definition selectedValues (sel : option (list string)) : list string :=
  match sel with
  | Some arr => arr
  | None => []
  end.

(** The applied-filters banner of [ConceptTable]. *)
Module Banner.

(** [filterLabels] *)
Definition filterLabels (field : FilterField) : string :=
  match field with
  | ConceptClassId => "class"
  | DomainId => "domain"
  | InvalidReason => "validity"
  | StandardConcept => "standard concept"
  | VocabularyId => "vocabulary"
  end.

(** One line of the banner: the label of a field and one tag per value. *)
Definition line (filteredInfo : Hook.Filters) (field : FilterField)
  : list (string * list string) :=
  match Hook.filterValue filteredInfo field with
  | None => []
  | Some values =>
      match values with
      | [] => []
      | _ :: _ => [(filterLabels field, values)]
      end
  end.

(** [renderFilterSection]: [None] for [null], otherwise the lines in the
    order of the filter columns. *)
Definition renderFilterSection (filteredInfo : Hook.Filters)
  : option (list (string * list string)) :=
  if negb (Hook.hasActiveFilters filteredInfo) then None
  else Some (flat_map (line filteredInfo) allFields).

End Banner.

(** The recommendations table: [ConceptRecommendations] turns every
    recommendation into a row for [ConceptTableCore]. *)
Module Recommendations.

(** [interface RecommendedConcept] *)
Record RecommendedConcept : Type := mkRecommendedConcept {
  concept_id : Z;
  concept_name : string;
  vocabulary_id : string;
  domain_id : string;
  concept_class_id : string;
  concept_code : string;
  standard_concept : string;
  invalid_reason : option string;
  similarity_score : Q;
  source_concept_id : Z
}.

Section Transform.

(** The two helpers of [service/search] the component imports; their code
    is not part of the sources at hand. *)
Variable expandStandardConceptAbbreviation : string -> string.
Variable expandInvalidReasonAbbreviation : option string -> string.

(** [rec.invalid_reason || undefined] *)
Definition invalidReasonOrUndefined (rec : RecommendedConcept) : option string :=
  match invalid_reason rec with
  | Some s => if String.eqb s "" then None else Some s
  | None => None
  end.

(** The single value the row of a recommendation holds for a field. *)
Definition fieldValue (field : FilterField) (rec : RecommendedConcept) : string :=
  match field with
  | ConceptClassId => concept_class_id rec
  | DomainId => domain_id rec
  | InvalidReason =>
      expandInvalidReasonAbbreviation (invalidReasonOrUndefined rec)
  | StandardConcept =>
      expandStandardConceptAbbreviation (standard_concept rec)
  | VocabularyId => vocabulary_id rec
  end.

(** The callback of [recommendations.recommendations.map]. *)
Definition toRow (rec : RecommendedConcept) : ConceptRow :=
  mkConceptRow
    (Some (concept_id rec))
    (concept_name rec)
    (concept_code rec)
    [concept_class_id rec]
    [domain_id rec]
    [expandInvalidReasonAbbreviation (invalidReasonOrUndefined rec)]
    [expandStandardConceptAbbreviation (standard_concept rec)]
    [vocabulary_id rec]
    (Some (similarity_score rec))
    None.

Definition transformedData (recommendations : list RecommendedConcept)
  : list ConceptRow :=
  map toRow recommendations.

End Transform.

End Recommendations.

(** ** The MCP server: validation and dispatch of tool calls

    [mcp/src/index.ts].  The handler of a tool call validates the arguments
    with a zod schema, calls the API client and wraps the result; the API
    client itself is not part of the sources at hand and is a parameter. *)
Module Mcp.

(** A JavaScript number: a finite value, or one of [NaN], [Infinity] and
    [-Infinity]. *)
Inductive Number : Type :=
| Finite (q : Q)
| NotFinite.

(** The value of an argument; arrays and objects are not told apart. *)
Inductive Value : Type :=
| VNull
| VBool (b : bool)
| VNumber (n : Number)
| VString (s : string)
| VOther.

(** [request.params.arguments] when present: an object. *)
Definition Arguments : Type := list (string * Value).

(** [args[key]], [None] for [undefined]. *)
Fixpoint property (key : string) (args : Arguments) : option Value :=
  match args with
  | [] => None
  | (k, v) :: rest => if String.eqb k key then Some v else property key rest
  end.

(** [Number.isInteger(n)], with the integer when it holds. *)
Definition integerValue (n : Number) : option Z :=
  match n with
  | Finite q =>
      if Z.eqb (Z.modulo (Qnum q) (Zpos (Qden q))) 0
      then Some (Z.div (Qnum q) (Zpos (Qden q)))
      else None
  | NotFinite => None
  end.

(** The UTF-16 code units a byte of a UTF-8 encoded string stands for: one
    for the first byte of a code point, none for a continuation byte, two
    for the first byte of a code point encoded on four bytes. *)
Definition codeUnits (c : ascii) : nat :=
  let b := nat_of_ascii c in
  if Nat.ltb b 128 then 1
  else if Nat.ltb b 192 then 0
  else if Nat.ltb b 240 then 1
  else 2.

(** [s.length]: the strings of the model hold the UTF-8 encoding of the
    JavaScript string, whose length counts UTF-16 code units. *)
Fixpoint jsLength (s : string) : nat :=
  match s with
  | EmptyString => 0
  | String c rest => codeUnits c + jsLength rest
  end.

(** [z.string().min(lo).max(hi)]: [None] stands for a validation issue. *)
Definition zString (lo hi : nat) (v : option Value) : option string :=
  match v with
  | Some (VString s) =>
      if Nat.leb lo (jsLength s) && Nat.leb (jsLength s) hi
      then Some s else None
  | _ => None
  end.

(** [z.string().optional()] *)
Definition zOptionalString (v : option Value) : option (option string) :=
  match v with
  | None => Some None
  | Some (VString s) => Some (Some s)
  | Some _ => None
  end.

(** [z.number().int().min(lo).max(hi)] *)
Definition zInt (lo hi : Z) (v : Value) : option Z :=
  match v with
  | VNumber n =>
      match integerValue n with
      | Some z => if Z.leb lo z && Z.leb z hi then Some z else None
      | None => None
      end
  | _ => None
  end.

(** [z.number().int().min(lo).max(hi).optional()] *)
Definition zOptionalInt (lo hi : Z) (v : option Value) : option (option Z) :=
  match v with
  | None => Some None
  | Some x =>
      match zInt lo hi x with
      | Some z => Some (Some z)
      | None => None
      end
  end.

(** [z.number().int().positive()] *)
Definition zPositiveInt (v : option Value) : option Z :=
  match v with
  | Some (VNumber n) =>
      match integerValue n with
      | Some z => if Z.ltb 0 z then Some z else None
      | None => None
      end
  | _ => None
  end.

(** [interface SearchOptions] *)
Record SearchOptions : Type := mkSearchOptions {
  vocabulary_id : option string;
  standard_concept : option string;
  domain_id : option string;
  concept_class_id : option string;
  limit : option Z
}.

(** What [SearchInputSchema.parse] returns. *)
Record SearchInput : Type := mkSearchInput {
  query : string;
  filters : SearchOptions
}.

Definition parseSearchInput (args : option Arguments) : option SearchInput :=
  match args with
  | None => None
  | Some o =>
      match zString 1 500 (property "query" o),
            zOptionalString (property "vocabulary_id" o),
            zOptionalString (property "standard_concept" o),
            zOptionalString (property "domain_id" o),
            zOptionalString (property "concept_class_id" o),
            zOptionalInt 1 150 (property "limit" o) with
      | Some q, Some v, Some s, Some d, Some c, Some l =>
          Some (mkSearchInput q (mkSearchOptions v s d c l))
      | _, _, _, _, _, _ => None
      end
  end.

(** [ConceptIdInputSchema.parse] *)
Definition parseConceptIdInput (args : option Arguments) : option Z :=
  match args with
  | None => None
  | Some o => zPositiveInt (property "id" o)
  end.

(** What [ExpandConceptInputSchema.parse] returns. *)
Record ExpandInput : Type := mkExpandInput {
  id : Z;
  childLevels : option Z;
  parentLevels : option Z
}.

Definition parseExpandConceptInput (args : option Arguments) : option ExpandInput :=
  match args with
  | None => None
  | Some o =>
      match zPositiveInt (property "id" o),
            zOptionalInt 0 10 (property "childLevels" o),
            zOptionalInt 0 10 (property "parentLevels" o) with
      | Some i, Some c, Some p => Some (mkExpandInput i c p)
      | _, _, _ => None
      end
  end.

(** A destructuring default: [x = d]. *)
Definition withDefault (d : Z) (x : option Z) : Z :=
  match x with
  | Some z => z
  | None => d
  end.

(** The calls the handler makes on the API client. *)
Inductive ApiCall : Type :=
| Search (query : string) (options : SearchOptions)
| GetConceptById (id : Z)
| GetConceptRelationships (id : Z)
| GetConceptPhoebe (id : Z)
| GetConceptDefinition (id : Z)
| ExpandConcept (id childLevels parentLevels : Z).

(** Why a request does not reach the API client. *)
Inductive Rejection : Type :=
| UnknownTool (name : string)
| InvalidArguments.

Definition validated (A : Type) (parsed : option A) (call : A -> ApiCall)
  : Rejection + ApiCall :=
  match parsed with
  | Some input => inr (call input)
  | None => inl InvalidArguments
  end.

(** The [switch (name)] of the handler up to the call of the API client. *)
Definition plan (name : string) (args : option Arguments) : Rejection + ApiCall :=
  if String.eqb name "search_concepts" then
    validated (parseSearchInput args)
      (fun input =>
         Search (query input)
           (mkSearchOptions
              (vocabulary_id (filters input))
              (standard_concept (filters input))
              (domain_id (filters input))
              (concept_class_id (filters input))
              (Some (withDefault 25 (limit (filters input))))))
  else if String.eqb name "get_concept_by_id" then
    validated (parseConceptIdInput args) GetConceptById
  else if String.eqb name "get_concept_relationships" then
    validated (parseConceptIdInput args) GetConceptRelationships
  else if String.eqb name "get_concept_phoebe" then
    validated (parseConceptIdInput args) GetConceptPhoebe
  else if String.eqb name "get_concept_definition" then
    validated (parseConceptIdInput args) GetConceptDefinition
  else if String.eqb name "expand_concept_hierarchy" then
    validated (parseExpandConceptInput args)
      (fun input =>
         ExpandConcept (id input)
           (withDefault 5 (childLevels input))
           (withDefault 0 (parentLevels input)))
  else inl (UnknownTool name).

(** [ErrorCode], as far as the handler uses it. *)
Inductive ErrorCode : Type :=
| MethodNotFound
| InvalidParams
| InternalError.

(** What the [try] block can throw, by the first test of the [catch] block
    it passes: a [ZodError], an [McpError], an object with a [response]
    property, another [Error], anything else. *)
Inductive Thrown : Type :=
| ZodError (message : string)
| McpErrorThrown (code : ErrorCode) (message : string)
| WithResponse (status : option Z) (statusText : option string)
    (message : option string)
| ErrorObject (message : string)
| OtherValue (asString : string).

(** An [McpError] by the code and the message given to its constructor. *)
Record McpError : Type := mkMcpError {
  code : ErrorCode;
  message : string
}.

(** A template literal's rendering of a value that may be [undefined]. *)
Definition interpolate (v : option string) : string :=
  match v with
  | Some s => s
  | None => "undefined"
  end.

Definition interpolateNumber (n : option Z) : string :=
  match n with
  | Some z => NilZero.string_of_int (Z.to_int z)
  | None => "undefined"
  end.

(** The [catch] block: what the handler throws in the end. *)
Definition toMcpError (error : Thrown) : McpError :=
  match error with
  | ZodError m => mkMcpError InvalidParams ("Invalid parameters: " ++ m)
  | McpErrorThrown c m => mkMcpError c m
  | WithResponse status statusText m =>
      mkMcpError InternalError
        ("API Error: " ++ interpolateNumber status ++ " - "
         ++ (if Js.truthy statusText then interpolate statusText
             else interpolate m))
  | ErrorObject m => mkMcpError InternalError ("Unexpected error: " ++ m)
  | OtherValue s => mkMcpError InternalError ("Unexpected error: " ++ s)
  end.

Section Handler.

(** The result of an API call, the API client, the message zod gives for
    rejected arguments and the text the handler puts in its answer
    ([JSON.stringify(result, null, 2)], or the definition itself). *)
Variable Payload : Type.
Variable apiClient : ApiCall -> Thrown + Payload.
Variable zodMessage : string -> option Arguments -> string.
Variable answerText : ApiCall -> Payload -> string.

(** The handler of [CallToolRequestSchema]: the text of the answer, or the
    error thrown. *)
Definition callTool (name : string) (args : option Arguments)
  : McpError + string :=
  match plan name args with
  | inl (UnknownTool n) =>
      inl (toMcpError (McpErrorThrown MethodNotFound ("Unknown tool: " ++ n)))
  | inl InvalidArguments => inl (toMcpError (ZodError (zodMessage name args)))
  | inr call =>
      match apiClient call with
      | inl thrown => inl (toMcpError thrown)
      | inr payload => inr (answerText call payload)
      end
  end.

End Handler.

(** The bounds the schemas put on what reaches the API client. *)
Definition inRange (call : ApiCall) : Prop :=
  match call with
  | Search q options =>
      1 <= jsLength q <= 500 /\
      exists l, limit options = Some l /\ (1 <= l <= 150)%Z
  | GetConceptById i
  | GetConceptRelationships i
  | GetConceptPhoebe i
  | GetConceptDefinition i => (0 < i)%Z
  | ExpandConcept i c p => (0 < i)%Z /\ (0 <= c <= 10)%Z /\ (0 <= p <= 10)%Z
  end.

Definition toolNames : list string :=
  ["search_concepts"; "get_concept_by_id"; "get_concept_relationships";
   "get_concept_phoebe"; "get_concept_definition"; "expand_concept_hierarchy"].

End Mcp.

(** * Properties *)

(** ** JavaScript primitives *)

Lemma includes_In (arr : list string) (v : option string) :
  Js.includes arr v = true <-> exists s, v = Some s /\ In s arr.
Proof.
  destruct v as [s|]; simpl.
  - rewrite existsb_exists. split.
    + intros (x & Hin & Heq). apply String.eqb_eq in Heq. subst x.
      exists s. split; [reflexivity | assumption].
    + intros (x & Heq & Hin). injection Heq as <-.
      exists s. split; [assumption | apply String.eqb_refl].
  - split; [discriminate | intros (s & Heq & _); discriminate].
Qed.

Lemma sameValueZero_eq (a b : option string) :
  Js.sameValueZero a b = true <-> a = b.
Proof.
  destruct a as [x|], b as [y|]; simpl; try (split; congruence).
  rewrite String.eqb_eq. split; congruence.
Qed.

(** ** The predicate *)

Lemma rejects_inactive sel values :
  active sel = false -> rejects sel values = false.
Proof.
  destruct sel as [[|x arr]|]; simpl; [reflexivity | discriminate | reflexivity].
Qed.

Lemma rejects_false_iff sel values :
  rejects sel values = false <->
  (active sel = true ->
   exists arr v, sel = Some arr /\ hd_error values = Some v /\ In v arr).
Proof.
  destruct sel as [[|x arr]|]; simpl.
  - split; [discriminate | reflexivity].
  - rewrite negb_false_iff, includes_In. split.
    + intros (v & Hv & Hin) _. exists (x :: arr), v. auto.
    + intros H. destruct (H eq_refl) as (arr' & v & Harr & Hv & Hin).
      injection Harr as <-. exists v. auto.
  - split; [discriminate | reflexivity].
Qed.

(** The cascade of five early returns is the conjunction over the fields. *)
Lemma acceptsChild_forallb filters child :
  acceptsChild filters child =
  forallb (fun field => negb (rejects (selection filters field) (get field child)))
    allFields.
Proof.
  unfold acceptsChild. simpl.
  destruct (rejects (fs_concept_class_id filters) (concept_class_id child)),
    (rejects (fs_domain_id filters) (domain_id child)),
    (rejects (fs_invalid_reason filters) (invalid_reason child)),
    (rejects (fs_standard_concept filters) (standard_concept child)),
    (rejects (fs_vocabulary_id filters) (vocabulary_id child)); reflexivity.
Qed.

Lemma allFields_complete field : In field allFields.
Proof. destruct field; simpl; auto 6. Qed.

Lemma acceptsChild_true_iff filters child :
  acceptsChild filters child = true <->
  forall field, rejects (selection filters field) (get field child) = false.
Proof.
  rewrite acceptsChild_forallb, forallb_forall. split.
  - intros H field. apply negb_true_iff, H, allFields_complete.
  - intros H field _. apply negb_true_iff, H.
Qed.

(** C3. A child is accepted exactly when, for every field that carries a
    non-empty selection, the child's first value for that field is one of
    the selected values; a field whose selection is empty or absent asks
    nothing. *)
Theorem acceptsChild_semantics (filters : FilterState) (child : ConceptRow) :
  acceptsChild filters child = true <->
  (forall field,
     active (selection filters field) = true ->
     exists sel v,
       selection filters field = Some sel /\
       hd_error (get field child) = Some v /\
       In v sel).
Proof.
  rewrite acceptsChild_true_iff. split.
  - intros H field. apply rejects_false_iff, H.
  - intros H field. apply rejects_false_iff, H.
Qed.

Lemma noConstraint_accepts filters child :
  noConstraint filters -> acceptsChild filters child = true.
Proof.
  intros Hno. apply acceptsChild_true_iff. intros field.
  apply rejects_inactive, Hno.
Qed.

Lemma filter_all (A : Type) (p : A -> bool) (l : list A) :
  (forall x, In x l -> p x = true) -> filter p l = l.
Proof.
  induction l as [|x l IH]; simpl; intros H; [reflexivity|].
  rewrite (H x (or_introl eq_refl)). f_equal. apply IH. auto.
Qed.

Lemma filter_length_mono (A : Type) (p q : A -> bool) (l : list A) :
  (forall x, In x l -> p x = true -> q x = true) ->
  List.length (filter p l) <= List.length (filter q l).
Proof.
  induction l as [|x l IH]; simpl; intros H; [lia|].
  assert (IH' := IH (fun y Hy => H y (or_intror Hy))).
  destruct (p x) eqn:Hp.
  - rewrite (H x (or_introl eq_refl) Hp). simpl. lia.
  - destruct (q x); simpl; lia.
Qed.

Lemma filter_singleton_In (A : Type) (p : A -> bool) (l : list A) (x y : A) :
  filter p l = [y] -> In x l -> p x = true -> x = y.
Proof.
  intros Hf Hin Hp.
  assert (In x (filter p l)) as Hx by (apply filter_In; auto).
  rewrite Hf in Hx. destruct Hx as [<-|[]]. reflexivity.
Qed.

Lemma length_one (A : Type) (l : list A) :
  List.length l = 1 -> exists x, l = [x].
Proof.
  destruct l as [|x [|y l]]; simpl; try discriminate. eauto.
Qed.

Lemma withChildren_same row cs :
  children row = Some cs -> withChildren row cs = row.
Proof. destruct row; simpl. intros ->. reflexivity. Qed.

(** ** The projection, row by row *)

Lemma filterRow_leaf filters row :
  children row = None -> filterRow filters row = row.
Proof. unfold filterRow. intros ->. reflexivity. Qed.

Lemma filterRow_small filters row cs :
  children row = Some cs -> List.length cs <= 1 -> filterRow filters row = row.
Proof.
  unfold filterRow. intros -> Hlen.
  destruct (Nat.ltb_spec 1 (List.length cs)); [lia | reflexivity].
Qed.

Lemma filterRow_promote filters row cs only :
  children row = Some cs -> 1 < List.length cs ->
  applyFiltersToChildren cs filters = [only] ->
  filterRow filters row = only.
Proof.
  unfold filterRow. intros -> Hlen ->.
  destruct (Nat.ltb_spec 1 (List.length cs)); [reflexivity | lia].
Qed.

Lemma filterRow_narrow filters row cs :
  children row = Some cs -> 1 < List.length cs ->
  List.length (applyFiltersToChildren cs filters) <> 1 ->
  filterRow filters row = withChildren row (applyFiltersToChildren cs filters).
Proof.
  unfold filterRow. intros -> Hlen Hne.
  destruct (Nat.ltb_spec 1 (List.length cs)); [|lia].
  destruct (applyFiltersToChildren cs filters) as [|x [|y l]]; simpl in *;
    try reflexivity. congruence.
Qed.

Lemma filterRow_outcome filters row : SlotOutcome filters row (filterRow filters row).
Proof.
  destruct (children row) as [cs|] eqn:Hcs.
  - destruct (Nat.le_gt_cases (List.length cs) 1) as [Hle|Hgt].
    + rewrite (filterRow_small filters row Hcs Hle). constructor.
      intros cs' Heq. rewrite Hcs in Heq. injection Heq as <-. exact Hle.
    + destruct (Nat.eq_dec (List.length (applyFiltersToChildren cs filters)) 1)
        as [Heq|Hne].
      * destruct (length_one _ Heq) as (only & Honly).
        rewrite (filterRow_promote filters row Hcs Hgt Honly).
        assert (In only (filter (acceptsChild filters) cs)) as Hin
            by (unfold applyFiltersToChildren in Honly; rewrite Honly; left; reflexivity).
        apply filter_In in Hin. destruct Hin.
        eapply Promoted; eauto.
      * rewrite (filterRow_narrow filters row Hcs Hgt Hne).
        eapply Narrowed; eauto.
  - rewrite (filterRow_leaf filters row Hcs). constructor.
    intros cs Heq. congruence.
Qed.

Lemma filterData_nth_error originalData filters i :
  nth_error (filterData originalData filters) i =
  option_map (filterRow filters) (nth_error originalData i).
Proof. unfold filterData. apply nth_error_map. Qed.

(** ** Collapse and round trip *)

(** C1. When exactly one child of a top-level group with more than one
    child is accepted, the slot of that group in the projection holds that
    child itself: the output row has the child's [concept_id], [score] and
    field sequences, and is a leaf when the child is. *)
Theorem collapse_to_single_match
  (originalData : list ConceptRow) (filters : FilterState) (i : nat)
  (row : ConceptRow) (cs : list ConceptRow) (child : ConceptRow) :
  nth_error originalData i = Some row ->
  children row = Some cs ->
  1 < List.length cs ->
  In child cs ->
  acceptsChild filters child = true ->
  List.length (applyFiltersToChildren cs filters) = 1 ->
  exists out,
    nth_error (filterData originalData filters) i = Some out /\
    out = child /\
    concept_id out = concept_id child /\
    score out = score child /\
    (forall field, get field out = get field child) /\
    children out = children child.
Proof.
  intros Hrow Hcs Hlen Hin Hacc Hone.
  destruct (length_one _ Hone) as (only & Honly).
  assert (child = only) as <-
      by (eapply filter_singleton_In; [exact Honly | exact Hin | exact Hacc]).
  exists child. rewrite filterData_nth_error, Hrow. simpl.
  rewrite (filterRow_promote filters row Hcs Hlen Honly).
  repeat split; reflexivity.
Qed.

Lemma collapse_to_single_match_witness :
  exists out,
    nth_error (filterData [Sample.snomed; Sample.diabetes]
                 (Sample.onlyVocabulary ["SNOMED"])) 1 = Some out /\
    out = Sample.snomed /\
    concept_id out = concept_id Sample.snomed /\
    score out = score Sample.snomed /\
    (forall field, get field out = get field Sample.snomed) /\
    children out = children Sample.snomed.
Proof.
  apply (@collapse_to_single_match [Sample.snomed; Sample.diabetes]
           (Sample.onlyVocabulary ["SNOMED"]) 1 Sample.diabetes
           [Sample.snomed; Sample.icd10] Sample.snomed).
  - reflexivity.
  - reflexivity.
  - simpl. lia.
  - simpl. auto.
  - reflexivity.
  - reflexivity.
Defined.

Lemma noConstraint_default : noConstraint defaultFilterState.
Proof. intros []; reflexivity. Qed.

Lemma filterRow_noConstraint filters row :
  noConstraint filters -> filterRow filters row = row.
Proof.
  intros Hno. unfold filterRow.
  destruct (children row) as [cs|] eqn:Hcs; [|reflexivity].
  destruct (Nat.ltb_spec 1 (List.length cs)) as [Hlen|]; [|reflexivity].
  unfold applyFiltersToChildren.
  rewrite filter_all by (intros; apply noConstraint_accepts; assumption).
  destruct cs as [|x [|y l]]; simpl in Hlen; try lia.
  apply withChildren_same. assumption.
Qed.

(** C2. With no active constraint (every selection empty or absent, as in
    the default filter state) the projection returns the original data:
    leaves pass through and every group keeps all its children in order. *)
Theorem clear_filters_round_trip
  (originalData : list ConceptRow) (filters : FilterState) :
  noConstraint filters ->
  filterData originalData filters = originalData.
Proof.
  intros Hno. unfold filterData.
  induction originalData as [|row rest IH]; simpl; [reflexivity|].
  rewrite IH, (filterRow_noConstraint row Hno). reflexivity.
Qed.

Lemma clear_filters_round_trip_witness :
  filterData [Sample.diabetes3; Sample.snomed; Sample.singleton]
    defaultFilterState
  = [Sample.diabetes3; Sample.snomed; Sample.singleton].
Proof.
  apply (@clear_filters_round_trip
           [Sample.diabetes3; Sample.snomed; Sample.singleton]
           defaultFilterState).
  intros field. destruct field; reflexivity.
Defined.

(** ** Groups of at most one child *)

(** C5, as the specification states it, fails: a group with a single child
    is not put through the predicate.  When the child is rejected the group
    keeps it (the uniform rule would leave no children); when it is accepted
    the group stays a group (the uniform rule would promote the child). *)
Lemma trivial_group_rule_counterexample :
  filterData [Sample.singleton] (Sample.onlyVocabulary ["RxNorm"])
    <> map (uniformGroupRule (Sample.onlyVocabulary ["RxNorm"])) [Sample.singleton]
  /\ filterData [Sample.singleton] (Sample.onlyVocabulary ["ICD10CM"])
    <> map (uniformGroupRule (Sample.onlyVocabulary ["ICD10CM"])) [Sample.singleton].
Proof.
  split; intros H; vm_compute in H; discriminate H.
Qed.

(** C5, amended. A top-level group with zero or one child is left as it is
    by the projection, whatever the filter state: the predicate is applied
    only to groups with more than one child. *)
Theorem small_group_passed_through
  (originalData : list ConceptRow) (filters : FilterState) (i : nat)
  (row : ConceptRow) (cs : list ConceptRow) :
  nth_error originalData i = Some row ->
  children row = Some cs ->
  List.length cs <= 1 ->
  nth_error (filterData originalData filters) i = Some row.
Proof.
  intros Hrow Hcs Hlen.
  rewrite filterData_nth_error, Hrow. simpl.
  rewrite (filterRow_small filters row Hcs Hlen). reflexivity.
Qed.

Lemma small_group_passed_through_witness :
  nth_error (filterData [Sample.snomed; Sample.singleton]
               (Sample.onlyVocabulary ["RxNorm"])) 1
  = Some Sample.singleton.
Proof.
  apply (@small_group_passed_through [Sample.snomed; Sample.singleton]
           (Sample.onlyVocabulary ["RxNorm"]) 1 Sample.singleton [Sample.icd10]).
  - reflexivity.
  - reflexivity.
  - simpl. lia.
Defined.

(** ** Monotonicity *)

Lemma selection_withSelection_same field sel filters :
  selection (withSelection field sel filters) field = sel.
Proof. destruct field; reflexivity. Qed.

Lemma selection_withSelection_other field field' sel filters :
  field <> field' ->
  selection (withSelection field sel filters) field' = selection filters field'.
Proof. destruct field, field'; intros H; try reflexivity; congruence. Qed.

Lemma FilterField_eq_dec (a b : FilterField) : {a = b} + {a <> b}.
Proof. decide equality. Defined.

Lemma accepts_after_constraint filters field sel child :
  active (selection filters field) = false ->
  acceptsChild (withSelection field sel filters) child = true ->
  acceptsChild filters child = true.
Proof.
  intros Hinactive Hacc. rewrite acceptsChild_true_iff in *.
  intros field'. destruct (FilterField_eq_dec field field') as [<-|Hne].
  - apply rejects_inactive, Hinactive.
  - rewrite <- (selection_withSelection_other sel filters Hne). apply Hacc.
Qed.

(** C8. Giving a selection to a field that had none never increases the
    number of accepted children of any child list. *)
Theorem added_constraint_never_adds_matches
  (cs : list ConceptRow) (filters : FilterState) (field : FilterField)
  (sel : list string) :
  active (selection filters field) = false ->
  List.length (applyFiltersToChildren cs (withSelection field (Some sel) filters))
    <= List.length (applyFiltersToChildren cs filters).
Proof.
  intros Hinactive. unfold applyFiltersToChildren.
  apply filter_length_mono. intros child _.
  apply accepts_after_constraint. exact Hinactive.
Qed.

Lemma added_constraint_never_adds_matches_witness :
  List.length (applyFiltersToChildren [Sample.snomed; Sample.icd10; Sample.icd10obs]
                 (withSelection DomainId (Some ["Condition"])
                    (Sample.onlyVocabulary ["ICD10CM"])))
    <= List.length (applyFiltersToChildren [Sample.snomed; Sample.icd10; Sample.icd10obs]
                      (Sample.onlyVocabulary ["ICD10CM"])).
Proof.
  apply (@added_constraint_never_adds_matches
           [Sample.snomed; Sample.icd10; Sample.icd10obs]
           (Sample.onlyVocabulary ["ICD10CM"]) DomainId ["Condition"]).
  reflexivity.
Defined.

(** ** Shape of the projection *)

Lemma filterData_outcomes originalData filters :
  Forall2 (SlotOutcome filters) originalData (filterData originalData filters).
Proof.
  unfold filterData.
  induction originalData as [|row rest IH]; simpl; constructor.
  - apply filterRow_outcome.
  - exact IH.
Qed.

(** C10. The projection has one row per input row, slot by slot in the
    input order: every slot holds the input row itself, one of its children
    promoted, or the input row with its accepted children.  In a two-level
    forest the slot of a group with more than one child never holds a group
    with exactly one child: it holds a leaf or a group whose child count is
    not one. *)
Theorem projection_shape
  (originalData : list ConceptRow) (filters : FilterState) :
  (forall row, In row originalData -> childrenAreLeaves row) ->
  List.length (filterData originalData filters) = List.length originalData /\
  Forall2 (SlotOutcome filters) originalData (filterData originalData filters) /\
  (forall i row cs,
     nth_error originalData i = Some row ->
     children row = Some cs ->
     1 < List.length cs ->
     exists out,
       nth_error (filterData originalData filters) i = Some out /\
       (children out = None \/
        exists accepted,
          children out = Some accepted /\ List.length accepted <> 1)).
Proof.
  intros Hforest. split; [|split].
  - unfold filterData. apply length_map.
  - apply filterData_outcomes.
  - intros i row cs Hrow Hcs Hlen.
    exists (filterRow filters row). split.
    + rewrite filterData_nth_error, Hrow. reflexivity.
    + destruct (Nat.eq_dec (List.length (applyFiltersToChildren cs filters)) 1)
        as [Heq|Hne].
      * destruct (length_one _ Heq) as (only & Honly).
        rewrite (filterRow_promote filters row Hcs Hlen Honly). left.
        apply (Hforest row (nth_error_In _ _ Hrow) cs only Hcs).
        assert (In only (filter (acceptsChild filters) cs)) as Hin
            by (unfold applyFiltersToChildren in Honly; rewrite Honly; left; reflexivity).
        apply filter_In in Hin. tauto.
      * rewrite (filterRow_narrow filters row Hcs Hlen Hne). right.
        exists (applyFiltersToChildren cs filters). split; [reflexivity | exact Hne].
Qed.

Lemma projection_shape_witness :
  let data := [Sample.diabetes3; Sample.snomed; Sample.singleton] in
  let filters := Sample.onlyVocabulary ["SNOMED"] in
  List.length (filterData data filters) = List.length data /\
  Forall2 (SlotOutcome filters) data (filterData data filters) /\
  (forall i row cs,
     nth_error data i = Some row ->
     children row = Some cs ->
     1 < List.length cs ->
     exists out,
       nth_error (filterData data filters) i = Some out /\
       (children out = None \/
        exists accepted,
          children out = Some accepted /\ List.length accepted <> 1)).
Proof.
  apply (@projection_shape [Sample.diabetes3; Sample.snomed; Sample.singleton]
           (Sample.onlyVocabulary ["SNOMED"])).
  intros row Hin cs c Hcs Hc. simpl in Hin.
  destruct Hin as [<-|[<-|[<-|[]]]]; simpl in Hcs;
    try discriminate Hcs; injection Hcs as <-; simpl in Hc;
    repeat (destruct Hc as [<-|Hc]; [reflexivity|]); destruct Hc.
Defined.

(** ** Sets in insertion order *)

Lemma filter_filter_and (A : Type) (p q : A -> bool) (l : list A) :
  filter p (filter q l) = filter (fun x => q x && p x) l.
Proof.
  induction l as [|x l IH]; simpl; [reflexivity|].
  destruct (q x); simpl; [destruct (p x)|]; rewrite IH; reflexivity.
Qed.

Lemma filter_map_comm (A B : Type) (g : A -> B) (p : B -> bool) (l : list A) :
  filter p (map g l) = map g (filter (fun x => p (g x)) l).
Proof.
  induction l as [|x l IH]; simpl; [reflexivity|].
  destruct (p (g x)); simpl; rewrite IH; reflexivity.
Qed.

Section FirstOccurrences.

Variable A : Type.
Variable eqb : A -> A -> bool.
Hypothesis eqb_eq : forall a b, eqb a b = true <-> a = b.

Lemma eqb_same a : eqb a a = true.
Proof. apply eqb_eq. reflexivity. Qed.

Lemma firstOccurrencesBy_In x l :
  In x (firstOccurrencesBy eqb l) <-> In x l.
Proof.
  induction l as [|y l IH]; simpl; [tauto|].
  rewrite filter_In, IH. split.
  - tauto.
  - intros [->|Hin]; [left; reflexivity|].
    destruct (eqb y x) eqn:E.
    + left. apply eqb_eq. exact E.
    + right. split; [exact Hin | reflexivity].
Qed.

Lemma firstOccurrencesBy_NoDup l : NoDup (firstOccurrencesBy eqb l).
Proof.
  induction l as [|y l IH]; simpl; constructor.
  - rewrite filter_In. intros [_ H]. rewrite eqb_same in H. discriminate.
  - apply NoDup_filter. exact IH.
Qed.

Lemma filter_firstOccurrencesBy (p : A -> bool) l :
  filter p (firstOccurrencesBy eqb l) = firstOccurrencesBy eqb (filter p l).
Proof.
  induction l as [|y l IH]; simpl; [reflexivity|].
  destruct (p y) eqn:Hp; simpl.
  - f_equal. rewrite <- IH, !filter_filter_and.
    apply filter_ext. intros a. apply andb_comm.
  - rewrite <- IH, filter_filter_and.
    apply filter_ext. intros a.
    destruct (eqb y a) eqn:E; simpl; [|reflexivity].
    apply eqb_eq in E. subst a. symmetry. exact Hp.
Qed.

End FirstOccurrences.

Lemma existsb_sameValueZero_In (v : option string) (set : list (option string)) :
  existsb (Js.sameValueZero v) set = true <-> In v set.
Proof.
  rewrite existsb_exists. split.
  - intros (x & Hin & Heq). apply sameValueZero_eq in Heq. subst x. exact Hin.
  - intros Hin. exists v. split; [exact Hin | apply sameValueZero_eq; reflexivity].
Qed.

Lemma setAdd_fold (arr set : list (option string)) :
  fold_left Js.setAdd arr set =
  set ++ filter (fun y => negb (existsb (Js.sameValueZero y) set))
           (firstOccurrencesBy Js.sameValueZero arr).
Proof.
  revert set. induction arr as [|x arr IH]; intros set; simpl.
  - symmetry. apply app_nil_r.
  - rewrite IH. unfold Js.setAdd.
    destruct (existsb (Js.sameValueZero x) set) eqn:E; simpl.
    + f_equal. rewrite filter_filter_and. apply filter_ext. intros y.
      destruct (Js.sameValueZero x y) eqn:Exy; simpl; [|reflexivity].
      apply sameValueZero_eq in Exy. subst y. rewrite E. reflexivity.
    + rewrite <- app_assoc. simpl. f_equal. f_equal.
      rewrite filter_filter_and. apply filter_ext. intros y.
      rewrite existsb_app. simpl. rewrite orb_false_r, negb_orb.
      rewrite andb_comm. f_equal. f_equal.
      destruct (Js.sameValueZero y x) eqn:Eyx, (Js.sameValueZero x y) eqn:Exy;
        try reflexivity.
      * apply sameValueZero_eq in Eyx. subst y.
        rewrite (proj2 (sameValueZero_eq x x) eq_refl) in Exy. discriminate.
      * apply sameValueZero_eq in Exy. subst y.
        rewrite (proj2 (sameValueZero_eq x x) eq_refl) in Eyx. discriminate.
Qed.

(** [[...new Set(arr)]] keeps every value at its first occurrence. *)
Lemma newSet_firstOccurrences (arr : list (option string)) :
  Js.newSet arr = firstOccurrencesBy Js.sameValueZero arr.
Proof.
  unfold Js.newSet. rewrite setAdd_fold. simpl.
  apply filter_all. reflexivity.
Qed.

Lemma firstOccurrencesBy_map_Some (l : list string) :
  firstOccurrencesBy Js.sameValueZero (map Some l) = map Some (firstOccurrences l).
Proof.
  unfold firstOccurrences.
  induction l as [|x l IH]; simpl; [reflexivity|].
  f_equal. rewrite IH. apply filter_map_comm.
Qed.

Lemma truthy_firstValues field rows :
  filter Js.truthy (map (firstValue field) rows)
  = map Some (nonEmptyFirstValues field rows).
Proof.
  induction rows as [|r rows IH]; simpl; [reflexivity|].
  change (firstValue field r) with (hd_error (get field r)).
  destruct (hd_error (get field r)) as [s|]; simpl; [|exact IH].
  destruct (String.eqb s ""); simpl; rewrite IH; reflexivity.
Qed.

(** The tags of a child list are its distinct non-empty first values, each
    at its first occurrence. *)
Lemma tagValues_distinctNonEmpty filtered field :
  tagValues filtered field = map Some (distinctNonEmpty field filtered).
Proof.
  unfold tagValues, distinctNonEmpty.
  rewrite newSet_firstOccurrences.
  rewrite (@filter_firstOccurrencesBy _ _ sameValueZero_eq).
  rewrite truthy_firstValues. apply firstOccurrencesBy_map_Some.
Qed.

Lemma nonEmptyFirstValues_In field rows v :
  In v (nonEmptyFirstValues field rows) <->
  v <> "" /\ exists r, In r rows /\ hd_error (get field r) = Some v.
Proof.
  unfold nonEmptyFirstValues. rewrite in_flat_map. split.
  - intros (r & Hr & Hv). destruct (hd_error (get field r)) as [s|] eqn:Hs; [|destruct Hv].
    destruct (String.eqb_spec s ""); [destruct Hv|].
    destruct Hv as [<-|[]]. split; [assumption|]. exists r. auto.
  - intros (Hne & r & Hr & Hv). exists r. split; [exact Hr|].
    rewrite Hv. destruct (String.eqb_spec v ""); [contradiction | left; reflexivity].
Qed.

Lemma distinctNonEmpty_In field rows v :
  In v (distinctNonEmpty field rows) <->
  v <> "" /\ exists r, In r rows /\ hd_error (get field r) = Some v.
Proof.
  unfold distinctNonEmpty, firstOccurrences.
  rewrite (@firstOccurrencesBy_In _ _ String.eqb_eq). apply nonEmptyFirstValues_In.
Qed.

Lemma distinctNonEmpty_NoDup field rows : NoDup (distinctNonEmpty field rows).
Proof. apply (@firstOccurrencesBy_NoDup _ _ String.eqb_eq). Qed.

(** ** Cells *)

Lemma applyFiltersToChildren_idempotent cs filters :
  applyFiltersToChildren (applyFiltersToChildren cs filters) filters
  = applyFiltersToChildren cs filters.
Proof.
  unfold applyFiltersToChildren. rewrite filter_filter_and.
  apply filter_ext. intros c. apply andb_diag.
Qed.

(** The children a projected group carries are the ones the renderer works
    on: filtering them again with the same filter state changes nothing. *)
Lemma projected_children_are_live filters row cs accepted :
  children row = Some cs ->
  1 < List.length cs ->
  List.length (applyFiltersToChildren cs filters) <> 1 ->
  children (filterRow filters row) = Some accepted ->
  applyFilterForConceptsWithChildren filters accepted = accepted.
Proof.
  intros Hcs Hlen Hne Hout.
  rewrite (filterRow_narrow filters row Hcs Hlen Hne) in Hout.
  simpl in Hout. injection Hout as <-.
  apply applyFiltersToChildren_idempotent.
Qed.

(** C4, as the specification states it, fails for a leaf: the renderer
    returns the row's array for the field, not the single value it holds. *)
Lemma leaf_cell_counterexample :
  renderCellValue defaultFilterState Sample.snomed VocabularyId
    = CellField ["SNOMED"] /\
  renderCellValue defaultFilterState Sample.snomed VocabularyId
    <> CellScalar (Some "SNOMED").
Proof. split; [reflexivity | discriminate]. Qed.

(** C4, amended. For a leaf the renderer returns the row's own value for the
    field, as stored (the one-value sequence of a leaf), untouched.  For a
    group whose accepted children are exactly one it returns that child's
    first value as a scalar.  Otherwise it returns one tag per distinct
    non-empty first value of the accepted children, in order of first
    occurrence; no accepted child gives no tag. *)
Theorem renderCellValue_contract
  (filters : FilterState) (row : ConceptRow) (field : FilterField) :
  (children row = None ->
   renderCellValue filters row field = CellField (get field row)) /\
  (forall cs only,
     children row = Some cs ->
     applyFiltersToChildren cs filters = [only] ->
     renderCellValue filters row field = CellScalar (hd_error (get field only))) /\
  (forall cs,
     children row = Some cs ->
     List.length (applyFiltersToChildren cs filters) <> 1 ->
     let shown := distinctNonEmpty field (applyFiltersToChildren cs filters) in
     renderCellValue filters row field = CellTags (map Some shown) /\
     NoDup shown /\
     (forall v,
        In v shown <->
        v <> "" /\
        exists child,
          In child (applyFiltersToChildren cs filters) /\
          hd_error (get field child) = Some v) /\
     (applyFiltersToChildren cs filters = [] -> shown = [])).
Proof.
  unfold renderCellValue, applyFilterForConceptsWithChildren, renderTagsForField.
  split; [|split].
  - intros ->. reflexivity.
  - intros cs only -> ->. reflexivity.
  - intros cs -> Hne. cbv zeta. split; [|split; [|split]].
    + rewrite tagValues_distinctNonEmpty.
      destruct (applyFiltersToChildren cs filters) as [|x [|y l]];
        try reflexivity. simpl in Hne. congruence.
    + apply distinctNonEmpty_NoDup.
    + intros v. apply distinctNonEmpty_In.
    + intros Hnil. rewrite Hnil. reflexivity.
Qed.

Lemma renderCellValue_contract_witness :
  renderCellValue (Sample.onlyVocabulary ["ICD10CM"]) Sample.snomed VocabularyId
    = CellField ["SNOMED"] /\
  renderCellValue (Sample.onlyVocabulary ["SNOMED"]) Sample.diabetes3 DomainId
    = CellScalar (Some "Condition") /\
  renderCellValue (Sample.onlyVocabulary ["ICD10CM"]) Sample.diabetes3 DomainId
    = CellTags [Some "Condition"; Some "Observation"].
Proof.
  split; [|split].
  - apply (proj1 (renderCellValue_contract (Sample.onlyVocabulary ["ICD10CM"])
                    Sample.snomed VocabularyId)).
    reflexivity.
  - apply (proj1 (proj2 (renderCellValue_contract (Sample.onlyVocabulary ["SNOMED"])
                           Sample.diabetes3 DomainId))
             [Sample.snomed; Sample.icd10; Sample.icd10obs] Sample.snomed).
    + reflexivity.
    + reflexivity.
  - apply (proj2 (proj2 (renderCellValue_contract (Sample.onlyVocabulary ["ICD10CM"])
                           Sample.diabetes3 DomainId))
             [Sample.snomed; Sample.icd10; Sample.icd10obs]).
    + reflexivity.
    + simpl. lia.
Defined.

(** Children showing [A, A, B] give the tags [A, B]. *)
Lemma tags_are_deduplicated :
  renderTagsForField
    [Sample.leaf 1 "A" "x"; Sample.leaf 2 "A" "y"; Sample.leaf 3 "B" "z"]
    VocabularyId
  = CellTags [Some "A"; Some "B"].
Proof. reflexivity. Qed.

(** Scenario 3 of the specification: no child matches, the group stays with
    no children and its cells show no tag. *)
Lemma empty_group_renders_no_tag :
  filterRow (Sample.onlyVocabulary ["RxNorm"]) Sample.diabetes
    = Sample.group [] /\
  forall field,
    renderCellValue (Sample.onlyVocabulary ["RxNorm"]) (Sample.group []) field
    = CellTags [].
Proof. split; [reflexivity | intros []; reflexivity]. Qed.

(** ** Children with no value for a field *)

Lemma nonEmptyFirstValues_app field l1 l2 :
  nonEmptyFirstValues field (l1 ++ l2)
  = nonEmptyFirstValues field l1 ++ nonEmptyFirstValues field l2.
Proof. unfold nonEmptyFirstValues. apply flat_map_app. Qed.

(** C9. A child whose sequence for a field is empty is handled without
    failure: its first value is [undefined], so it is rejected by every
    active constraint on that field, and it adds nothing to the tags of the
    field, wherever it stands in the child list. *)
Theorem empty_sequence_degrades (field : FilterField) (child : ConceptRow) :
  get field child = [] ->
  firstValue field child = None /\
  (forall filters,
     active (selection filters field) = true ->
     acceptsChild filters child = false) /\
  (forall before after,
     renderTagsForField (before ++ child :: after) field
     = renderTagsForField (before ++ after) field).
Proof.
  intros Hempty. split; [|split].
  - unfold firstValue. rewrite Hempty. reflexivity.
  - intros filters Hactive.
    destruct (acceptsChild filters child) eqn:Hacc; [|reflexivity].
    rewrite acceptsChild_true_iff in Hacc. specialize (Hacc field).
    rewrite rejects_false_iff in Hacc.
    destruct (Hacc Hactive) as (sel & v & _ & Hv & _).
    rewrite Hempty in Hv. discriminate.
  - intros before after. unfold renderTagsForField.
    rewrite !tagValues_distinctNonEmpty. unfold distinctNonEmpty.
    rewrite !nonEmptyFirstValues_app. simpl. rewrite Hempty. reflexivity.
Qed.

Lemma empty_sequence_degrades_witness :
  firstValue VocabularyId Sample.noVocabulary = None /\
  (forall filters,
     active (selection filters VocabularyId) = true ->
     acceptsChild filters Sample.noVocabulary = false) /\
  (forall before after,
     renderTagsForField (before ++ Sample.noVocabulary :: after) VocabularyId
     = renderTagsForField (before ++ after) VocabularyId).
Proof.
  apply (@empty_sequence_degrades VocabularyId Sample.noVocabulary).
  reflexivity.
Defined.

(** ** The member count of the id column *)

(** C6, as the specification states it, fails: the row the table renders
    is the projected one, and its label counts the children the projection
    kept.  Three children of which two are accepted give "2 concepts". *)
Lemma member_count_counterexample :
  idCell (filterRow (Sample.onlyVocabulary ["ICD10CM"]) Sample.diabetes3)
    = IdText "2 concepts" /\
  memberCountLabel Sample.diabetes3 = "3 concepts" /\
  idCell (filterRow (Sample.onlyVocabulary ["ICD10CM"]) Sample.diabetes3)
    <> IdText (memberCountLabel Sample.diabetes3).
Proof.
  split; [reflexivity | split; [reflexivity|]].
  intros H. vm_compute in H. discriminate H.
Qed.

(** C6, amended. The label of a projected group row counts the children
    that row carries: the accepted children when the group had more than one
    child (and did not collapse), the original children only when the
    group had at most one child and was passed through. *)
Theorem member_count_label
  (filters : FilterState) (row : ConceptRow) (cs : list ConceptRow) :
  children row = Some cs ->
  Js.truthyNumber (concept_id row) = false ->
  (List.length cs <= 1 ->
   idCell (filterRow filters row)
   = IdText (Js.numberToString (List.length cs) ++ " concepts")) /\
  (1 < List.length cs ->
   List.length (applyFiltersToChildren cs filters) <> 1 ->
   idCell (filterRow filters row)
   = IdText (Js.numberToString (List.length (applyFiltersToChildren cs filters))
             ++ " concepts")).
Proof.
  intros Hcs Hid. split.
  - intros Hlen. rewrite (filterRow_small filters row Hcs Hlen).
    unfold idCell, renderId, memberCountLabel. rewrite Hid, Hcs. reflexivity.
  - intros Hlen Hne. rewrite (filterRow_narrow filters row Hcs Hlen Hne).
    unfold idCell, renderId, memberCountLabel. simpl. rewrite Hid. reflexivity.
Qed.

Lemma member_count_label_witness :
  idCell (filterRow (Sample.onlyVocabulary ["ICD10CM"]) Sample.diabetes3)
  = IdText "2 concepts" /\
  idCell (filterRow (Sample.onlyVocabulary ["ICD10CM"]) Sample.singleton)
  = IdText "1 concepts".
Proof.
  split.
  - apply (proj2 (@member_count_label (Sample.onlyVocabulary ["ICD10CM"])
                    Sample.diabetes3 [Sample.snomed; Sample.icd10; Sample.icd10obs]
                    eq_refl eq_refl)).
    + simpl. lia.
    + simpl. lia.
  - apply (proj1 (@member_count_label (Sample.onlyVocabulary ["ICD10CM"])
                    Sample.singleton [Sample.icd10] eq_refl eq_refl)).
    simpl. lia.
Defined.

(** ** The counts object *)

Lemma firstOccurrences_snoc (l : list string) (k : string) :
  firstOccurrences (l ++ [k])
  = if in_dec string_dec k l then firstOccurrences l else firstOccurrences l ++ [k].
Proof.
  unfold firstOccurrences.
  induction l as [|x l IH]; simpl; [reflexivity|].
  rewrite IH. destruct (string_dec x k) as [->|Hne].
  - destruct (in_dec string_dec k l); [reflexivity|].
    rewrite filter_app. simpl. rewrite String.eqb_refl. simpl.
    rewrite app_nil_r. reflexivity.
  - destruct (in_dec string_dec k l); [reflexivity|].
    rewrite filter_app. simpl.
    rewrite (proj2 (String.eqb_neq x k) Hne). reflexivity.
Qed.

Lemma plainKey_not_inherited (k : string) :
  Js.plainKey k = true -> Js.inherited k = Js.NotInherited.
Proof.
  unfold Js.plainKey, Js.inherited. intros Hplain.
  apply negb_true_iff in Hplain. rewrite Hplain.
  destruct (String.eqb_spec k "__proto__") as [->|_]; [discriminate Hplain|].
  destruct (String.eqb_spec k "constructor") as [->|_]; [discriminate Hplain|].
  reflexivity.
Qed.

Lemma bump_fresh (k : string) (c : string -> nat) (ks : list string) :
  Js.plainKey k = true ->
  ~ In k ks ->
  bump k (map (fun x => (x, CountNumber (c x))) ks)
  = map (fun x => (x, CountNumber (c x))) ks ++ [(k, CountNumber 1)].
Proof.
  intros Hplain.
  induction ks as [|x ks IH]; simpl; intros Hnot.
  - rewrite (plainKey_not_inherited k Hplain). reflexivity.
  - destruct (String.eqb_spec x k) as [->|Hne]; [tauto|].
    rewrite IH by tauto. reflexivity.
Qed.

Lemma bump_present (k : string) (c c' : string -> nat) (ks : list string) :
  NoDup ks -> In k ks ->
  c' k = c k + 1 ->
  (forall x, x <> k -> c' x = c x) ->
  bump k (map (fun x => (x, CountNumber (c x))) ks)
  = map (fun x => (x, CountNumber (c' x))) ks.
Proof.
  intros Hnd Hin Hk Hother.
  induction ks as [|x ks IH]; simpl; [destruct Hin|].
  inversion Hnd as [|? ? Hx Hnd']; subst.
  destruct (String.eqb_spec x k) as [->|Hne].
  - rewrite Hk. f_equal. apply map_ext_in. intros y Hy.
    rewrite Hother; [reflexivity|]. intros ->. contradiction.
  - rewrite (Hother x Hne). f_equal. apply IH; [assumption|].
    destruct Hin; [contradiction | assumption].
Qed.

Lemma firstOccurrences_In (l : list string) (k : string) :
  In k (firstOccurrences l) <-> In k l.
Proof. apply (@firstOccurrencesBy_In _ _ String.eqb_eq). Qed.

Lemma firstOccurrences_NoDup (l : list string) : NoDup (firstOccurrences l).
Proof. apply (@firstOccurrencesBy_NoDup _ _ String.eqb_eq). Qed.

Lemma numbered_tally (keys : list string) :
  numbered (tally keys)
  = map (fun k => (k, CountNumber (count_occ string_dec keys k)))
      (firstOccurrences keys).
Proof. unfold numbered, tally. rewrite map_map. reflexivity. Qed.

Lemma bump_tally (pre : list string) (k : string) :
  Js.plainKey k = true ->
  bump k (numbered (tally pre)) = numbered (tally (pre ++ [k])).
Proof.
  intros Hplain. rewrite !numbered_tally, firstOccurrences_snoc.
  destruct (in_dec string_dec k pre) as [Hin|Hnot].
  - apply bump_present.
    + apply firstOccurrences_NoDup.
    + apply firstOccurrences_In. exact Hin.
    + rewrite count_occ_app. simpl.
      destruct (string_dec k k); [reflexivity | contradiction].
    + intros x Hne. rewrite count_occ_app. simpl.
      destruct (string_dec k x); [congruence | lia].
  - rewrite (@bump_fresh k (count_occ string_dec pre) _ Hplain)
      by (rewrite firstOccurrences_In; exact Hnot).
    rewrite map_app. simpl. f_equal.
    + apply map_ext_in. intros x Hx. rewrite count_occ_app. simpl.
      destruct (string_dec k x) as [->|]; [|rewrite Nat.add_0_r; reflexivity].
      rewrite firstOccurrences_In in Hx. contradiction.
    + rewrite count_occ_app. simpl.
      rewrite (proj1 (count_occ_not_In string_dec pre k) Hnot).
      destruct (string_dec k k); [reflexivity | contradiction].
Qed.

Lemma countConcepts_from (pre : list string) (concepts : list (option string)) :
  forallb Js.plainKey (map Js.propertyKey concepts) = true ->
  fold_left (fun acc concept => bump (Js.propertyKey concept) acc) concepts
    (numbered (tally pre))
  = numbered (tally (pre ++ map Js.propertyKey concepts)).
Proof.
  revert pre. induction concepts as [|c concepts IH]; intros pre Hplain; simpl.
  - rewrite app_nil_r. reflexivity.
  - simpl in Hplain. apply andb_true_iff in Hplain. destruct Hplain as [Hc Hrest].
    rewrite (@bump_tally pre _ Hc), (IH _ Hrest), <- app_assoc. reflexivity.
Qed.

(** When no key names a member of [Object.prototype], the [counts] object
    holds, in creation order, every distinct key with the number of its
    occurrences. *)
Lemma countConcepts_tally (concepts : list (option string)) :
  forallb Js.plainKey (map Js.propertyKey concepts) = true ->
  countConcepts concepts = numbered (tally (map Js.propertyKey concepts)).
Proof. exact (countConcepts_from [] concepts). Qed.

(** A key that names a member of [Object.prototype] is not counted: the
    count of [constructor] is a string, and [__proto__] gets no entry. *)
Lemma prototype_names_are_not_counted :
  createCountForFilter [Some "constructor"; Some "constructor"; Some "__proto__"]
  = [ {| text := "constructor (function Object() { [native code] }11)";
         value := "constructor" |} ].
Proof. reflexivity. Qed.

(** ** Sorting and [Object.entries] rearrange, they neither add nor drop *)

Lemma insertSorted_perm compare (x : string) (l : list string) :
  Permutation (insertSorted compare x l) (x :: l).
Proof.
  induction l as [|y l IH]; simpl; [apply Permutation_refl|].
  destruct (compare x y); try apply Permutation_refl.
  eapply perm_trans; [apply perm_skip, IH | apply perm_swap].
Qed.

Lemma sortStrings_perm compare (l : list string) :
  Permutation (sortStrings compare l) l.
Proof.
  unfold sortStrings. induction l as [|x l IH]; simpl; [constructor|].
  eapply perm_trans; [apply insertSorted_perm | apply perm_skip, IH].
Qed.

Lemma arraySort_perm compare (concepts : list (option string)) :
  Permutation (arraySort compare concepts) concepts.
Proof.
  unfold arraySort.
  eapply perm_trans.
  { apply Permutation_app_tail, Permutation_map, sortStrings_perm. }
  unfold definedValues, undefinedCount.
  induction concepts as [|[s|] concepts IH]; simpl.
  - constructor.
  - apply perm_skip, IH.
  - eapply perm_trans; [|apply perm_skip, IH].
    apply Permutation_sym, Permutation_middle.
Qed.

Lemma insertIndex_perm (V : Type) (e : N * (string * V))
  (l : list (N * (string * V))) :
  Permutation (insertIndex e l) (e :: l).
Proof.
  induction l as [|y l IH]; simpl; [apply Permutation_refl|].
  destruct (N.leb (fst e) (fst y)); [apply Permutation_refl|].
  eapply perm_trans; [apply perm_skip, IH | apply perm_swap].
Qed.

Lemma indexEntries_snd (V : Type) (o : list (string * V)) :
  map snd (indexEntries o) = filter (@isIndexKey V) o.
Proof.
  unfold indexEntries, isIndexKey.
  induction o as [|e o IH]; simpl; [reflexivity|].
  destruct (Js.arrayIndex (fst e)); simpl; rewrite IH; reflexivity.
Qed.

Lemma filter_split_perm (A : Type) (p : A -> bool) (l : list A) :
  Permutation (filter p l ++ filter (fun x => negb (p x)) l) l.
Proof.
  induction l as [|x l IH]; simpl; [constructor|].
  destruct (p x); simpl.
  - apply perm_skip, IH.
  - eapply perm_trans; [|apply perm_skip, IH].
    apply Permutation_sym, Permutation_middle.
Qed.

Lemma objectEntries_perm (V : Type) (o : list (string * V)) :
  Permutation (objectEntries o) o.
Proof.
  unfold objectEntries.
  eapply perm_trans; [|apply (filter_split_perm (@isIndexKey V))].
  apply Permutation_app_tail. rewrite <- indexEntries_snd.
  apply Permutation_map.
  induction (indexEntries o) as [|e l IH]; simpl; [constructor|].
  eapply perm_trans; [apply insertIndex_perm | apply perm_skip, IH].
Qed.

(** With no array-index key the entries come in creation order. *)
Lemma objectEntries_plain (V : Type) (o : list (string * V)) :
  Forall (fun k => Js.arrayIndex k = None) (map fst o) ->
  objectEntries o = o.
Proof.
  intros Hplain. unfold objectEntries.
  assert (indexEntries o = []) as ->.
  { unfold indexEntries. induction o as [|e o IH]; simpl; [reflexivity|].
    inversion Hplain as [|? ? He Ho]; subst.
    rewrite He. simpl. apply IH. exact Ho. }
  simpl. apply filter_all. intros e He. unfold isIndexKey.
  rewrite Forall_forall in Hplain.
  rewrite (Hplain (fst e) (in_map fst o e He)). reflexivity.
Qed.

(** ** Sortedness *)

Section Sorting.

Variable compare : string -> string -> comparison.
Hypothesis compare_total : forall a b, compare a b = Gt -> compare b a <> Gt.
Hypothesis compare_trans :
  forall a b c, notAfter compare a b -> notAfter compare b c -> notAfter compare a c.

Lemma insertSorted_HdRel (a x : string) (l : list string) :
  HdRel (notAfter compare) a l -> notAfter compare a x ->
  HdRel (notAfter compare) a (insertSorted compare x l).
Proof.
  intros Hhd Hax. destruct l as [|y l]; simpl.
  - constructor. exact Hax.
  - inversion Hhd; subst.
    destruct (compare x y); constructor; assumption.
Qed.

Lemma insertSorted_Sorted (x : string) (l : list string) :
  Sorted (notAfter compare) l ->
  Sorted (notAfter compare) (insertSorted compare x l).
Proof.
  induction l as [|y l IH]; simpl; intros Hs.
  - repeat constructor.
  - inversion Hs as [|? ? Hl Hhd]; subst.
    destruct (compare x y) eqn:E.
    + constructor; [exact Hs|]. constructor. unfold notAfter. congruence.
    + constructor; [exact Hs|]. constructor. unfold notAfter. congruence.
    + constructor; [apply IH; exact Hl|].
      apply insertSorted_HdRel; [exact Hhd|].
      apply compare_total. exact E.
Qed.

Lemma sortStrings_Sorted (l : list string) :
  StronglySorted (notAfter compare) (sortStrings compare l).
Proof.
  apply Sorted_StronglySorted.
  - intros a b c. apply compare_trans.
  - unfold sortStrings. induction l as [|x l IH]; simpl.
    + constructor.
    + apply insertSorted_Sorted, IH.
Qed.

End Sorting.

Lemma StronglySorted_filter (A : Type) (R : A -> A -> Prop) (p : A -> bool)
  (l : list A) :
  StronglySorted R l -> StronglySorted R (filter p l).
Proof.
  induction 1 as [|x l Hl IH Hx]; simpl; [constructor|].
  destruct (p x); [|exact IH].
  constructor; [exact IH|].
  rewrite Forall_forall in *. intros y Hy. apply Hx.
  apply filter_In in Hy. tauto.
Qed.

Lemma firstOccurrences_StronglySorted (R : string -> string -> Prop)
  (l : list string) :
  StronglySorted R l -> StronglySorted R (firstOccurrences l).
Proof.
  unfold firstOccurrences.
  induction 1 as [|x l Hl IH Hx]; simpl; constructor.
  - apply StronglySorted_filter, IH.
  - rewrite Forall_forall in *. intros y Hy. apply Hx.
    apply filter_In in Hy. destruct Hy as [Hy _].
    apply (firstOccurrences_In l y). exact Hy.
Qed.

Lemma all_defined (concepts : list (option string)) :
  Forall (fun v => v <> None) concepts ->
  undefinedCount concepts = 0 /\
  map Js.propertyKey concepts = definedValues concepts.
Proof.
  unfold undefinedCount, definedValues.
  induction 1 as [|[s|] l Hs Hl [IH1 IH2]]; simpl.
  - auto.
  - split; [exact IH1 | f_equal; exact IH2].
  - congruence.
Qed.

Lemma propertyKey_Some (l : list string) : map Js.propertyKey (map Some l) = l.
Proof. rewrite map_map. simpl. apply map_id. Qed.

(** ** The filter option index *)

Lemma toFilterOption_value (entries : list (string * Count)) :
  map value (map toFilterOption entries) = map fst entries.
Proof. rewrite map_map. reflexivity. Qed.

Lemma tally_keys (keys : list string) : map fst (tally keys) = firstOccurrences keys.
Proof. unfold tally. rewrite map_map. simpl. apply map_id. Qed.

Lemma tally_In (keys : list string) (e : string * nat) :
  In e (tally keys) ->
  In (fst e) keys /\ snd e = count_occ string_dec keys (fst e).
Proof.
  unfold tally. rewrite in_map_iff. intros (k & <- & Hk). simpl.
  rewrite firstOccurrences_In in Hk. auto.
Qed.

Lemma numbered_keys (keys : list string) :
  map fst (numbered (tally keys)) = firstOccurrences keys.
Proof. unfold numbered. rewrite map_map. simpl. apply tally_keys. Qed.

Lemma numbered_In (keys : list string) (e : string * Count) :
  In e (numbered (tally keys)) ->
  In (fst e) keys /\
  snd e = CountNumber (count_occ string_dec keys (fst e)).
Proof.
  unfold numbered. rewrite in_map_iff. intros (e' & <- & He').
  apply tally_In in He'. destruct He' as [Hin Hcount]. simpl.
  rewrite Hcount. auto.
Qed.

Lemma forallb_perm (A : Type) (p : A -> bool) (l l' : list A) :
  Permutation l l' -> forallb p l = true -> forallb p l' = true.
Proof.
  intros Hperm. rewrite !forallb_forall. intros H x Hx.
  apply H. apply (Permutation_in _ (Permutation_sym Hperm)). exact Hx.
Qed.

(** Both components build the same index from rows whose fields are arrays. *)
Lemma Core_getFilterSelector_same compare field rows :
  Core.getFilterSelector compare field rows = getFilterSelector compare field rows.
Proof.
  unfold Core.getFilterSelector, getFilterSelector.
  assert (Core.collectConcepts field rows = collectConcepts field rows) as ->;
    [|reflexivity].
  unfold Core.collectConcepts, collectConcepts.
  induction rows as [|row rows IH]; simpl; [reflexivity|].
  rewrite IH. destruct (children row) as [cs|]; [|reflexivity].
  apply (f_equal (fun l => l ++ collectConcepts field rows)).
  induction cs as [|c cs IHcs]; simpl; [reflexivity|].
  rewrite IHcs. reflexivity.
Qed.


(** Keys that are array indices come first, in numeric order, whatever the
    comparator made of them: "10" sorts before "9" but is listed after it. *)
Lemma index_like_values_are_reordered :
  sortStrings Sample.codePointCompare ["9"; "10"] = ["10"; "9"] /\
  map value (getFilterSelector Sample.codePointCompare VocabularyId
               [Sample.leaf 1 "9" "x"; Sample.leaf 2 "10" "x"])
  = ["9"; "10"].
Proof. split; reflexivity. Qed.


(** Code-point order is a total order. *)
Lemma codePointCompare_total (a b : string) :
  Sample.codePointCompare a b = Gt -> Sample.codePointCompare b a <> Gt.
Proof.
  unfold Sample.codePointCompare. rewrite (String.compare_antisym b a).
  intros ->. discriminate.
Qed.

Lemma codePointCompare_trans (a b c : string) :
  notAfter Sample.codePointCompare a b ->
  notAfter Sample.codePointCompare b c ->
  notAfter Sample.codePointCompare a c.
Proof.
  unfold notAfter, Sample.codePointCompare.
  revert b c. induction a as [|x a IH]; intros [|y b] [|z c]; simpl;
    try congruence.
  unfold Ascii.compare.
  destruct (N.compare_spec (N_of_ascii x) (N_of_ascii y)) as [E1|L1|G1];
    destruct (N.compare_spec (N_of_ascii y) (N_of_ascii z)) as [E2|L2|G2];
    destruct (N.compare_spec (N_of_ascii x) (N_of_ascii z)) as [E3|L3|G3];
    try congruence; try lia.
  apply IH.
Qed.


(** * Further properties of the component *)

(** ** Selections as they reach the filter state *)

Lemma split_not_nil (s : string) : Text.split s <> [].
Proof.
  destruct s as [|c rest]; simpl; [discriminate|].
  destruct (Ascii.eqb c Text.comma); [discriminate|].
  destruct (Text.split rest); discriminate.
Qed.

Lemma split_app_comma (a b : string) :
  Text.split (a ++ String Text.comma b) = Text.split a ++ Text.split b.
Proof.
  induction a as [|c a IH]; simpl.
  - reflexivity.
  - rewrite IH. destruct (Ascii.eqb c Text.comma); [reflexivity|].
    destruct (Text.split a) as [|piece pieces] eqn:Ha; [|reflexivity].
    exfalso. exact (split_not_nil a Ha).
Qed.

Lemma split_join (arr : list string) :
  arr <> [] -> Text.split (Text.join arr) = flat_map Text.split arr.
Proof.
  induction arr as [|x rest IH]; intros Hne; [congruence|].
  destruct rest as [|y rest].
  - simpl. rewrite app_nil_r. reflexivity.
  - change (Text.join (x :: y :: rest))
      with (x ++ String Text.comma (Text.join (y :: rest)))%string.
    rewrite split_app_comma, IH by discriminate. reflexivity.
Qed.

Lemma split_without_comma (s : string) :
  Text.hasComma s = false -> Text.split s = [s].
Proof.
  induction s as [|c s IH]; simpl; [reflexivity|].
  intros H. apply orb_false_iff in H. destruct H as [Hc Hs].
  rewrite Hc, (IH Hs). reflexivity.
Qed.

Lemma split_each_without_comma (arr : list string) :
  Forall (fun v => Text.hasComma v = false) arr ->
  flat_map Text.split arr = arr.
Proof.
  induction 1 as [|x arr Hx _ IH]; simpl; [reflexivity|].
  rewrite (split_without_comma x Hx), IH. reflexivity.
Qed.

Lemma handleChange_selection filters st field :
  selection (Hook.currentFilters (Hook.handleChange filters st)) field
  = Hook.toSelection (Hook.filterValue filters field).
Proof. destruct field; reflexivity. Qed.

(** X1. [handleChange] joins the selected values of a field with commas
    and splits the result at every comma: a non-empty selection reaches the
    filter state as the pieces of its values, so a selected value that
    contains a comma is replaced by its comma-separated parts. *)
Theorem handleChange_splits_at_commas
  (filters : Hook.Filters) (st : Hook.State) (field : FilterField)
  (arr : list string) :
  Hook.filterValue filters field = Some arr ->
  arr <> [] ->
  selection (Hook.currentFilters (Hook.handleChange filters st)) field
  = Some (flat_map Text.split arr).
Proof.
  intros Hsel Hne. rewrite handleChange_selection, Hsel. simpl.
  rewrite (split_join Hne). reflexivity.
Qed.

Lemma handleChange_splits_at_commas_witness :
  selection
    (Hook.currentFilters
       (Hook.handleChange
          (Hook.mkFilters None None None None (Some ["SNOMED"; "A,B"]))
          Hook.initial))
    VocabularyId
  = Some ["SNOMED"; "A"; "B"].
Proof.
  apply (@handleChange_splits_at_commas
           (Hook.mkFilters None None None None (Some ["SNOMED"; "A,B"]))
           Hook.initial VocabularyId ["SNOMED"; "A,B"]).
  - reflexivity.
  - discriminate.
Defined.

Lemma handleChange_mirrors_filters filters st :
  (forall field arr,
     Hook.filterValue filters field = Some arr ->
     arr <> [] /\ Forall (fun v => Text.hasComma v = false) arr) ->
  forall field,
    selection (Hook.currentFilters (Hook.handleChange filters st)) field
    = Hook.filterValue filters field.
Proof.
  intros Hwf field. rewrite handleChange_selection.
  destruct (Hook.filterValue filters field) as [arr|] eqn:Hsel; [|reflexivity].
  destruct (Hwf field arr Hsel) as [Hne Hcomma]. simpl.
  rewrite (split_join Hne), (split_each_without_comma Hcomma). reflexivity.
Qed.

(** X2. When every selected array is non-empty and none of the selected
    values contains a comma, [handleChange] stores the selection unchanged:
    the filter state holds, field by field, what the table reported, and a
    [null] entry becomes an absent one. *)
Theorem handleChange_keeps_selection
  (filters : Hook.Filters) (st : Hook.State) :
  (forall field arr,
     Hook.filterValue filters field = Some arr ->
     arr <> [] /\ Forall (fun v => Text.hasComma v = false) arr) ->
  forall field,
    selection (Hook.currentFilters (Hook.handleChange filters st)) field
    = Hook.filterValue filters field.
Proof.
  intros Hwf field. apply handleChange_mirrors_filters. exact Hwf.
Qed.

Lemma handleChange_keeps_selection_witness :
  selection
    (Hook.currentFilters
       (Hook.handleChange
          (Hook.mkFilters None (Some ["Condition"; "Drug"]) None None
             (Some ["SNOMED"]))
          Hook.initial))
    DomainId
  = Some ["Condition"; "Drug"].
Proof.
  apply (@handleChange_keeps_selection
           (Hook.mkFilters None (Some ["Condition"; "Drug"]) None None
              (Some ["SNOMED"]))
           Hook.initial).
  intros field arr Hsel.
  destruct field; simpl in Hsel; try discriminate Hsel;
    injection Hsel as <-; (split; [discriminate | repeat constructor]).
Defined.

(** X3. An empty array reported for a field does not clear the field: it
    reaches the filter state as the one-value selection of the empty string,
    an active constraint that only accepts children whose first value for
    the field is the empty string. *)
Theorem handleChange_empty_array
  (filters : Hook.Filters) (st : Hook.State) (field : FilterField) :
  Hook.filterValue filters field = Some [] ->
  let currentFilters := Hook.currentFilters (Hook.handleChange filters st) in
  selection currentFilters field = Some [""] /\
  active (selection currentFilters field) = true /\
  (forall child,
     acceptsChild currentFilters child = true ->
     hd_error (get field child) = Some "").
Proof.
  intros Hsel currentFilters.
  assert (selection currentFilters field = Some [""]) as Hcur.
  { unfold currentFilters. rewrite handleChange_selection, Hsel. reflexivity. }
  split; [exact Hcur | split].
  - rewrite Hcur. reflexivity.
  - intros child Hacc. rewrite acceptsChild_true_iff in Hacc.
    specialize (Hacc field). rewrite rejects_false_iff, Hcur in Hacc.
    destruct (Hacc eq_refl) as (sel & v & Heq & Hv & Hin).
    injection Heq as <-. destruct Hin as [<-|[]]. exact Hv.
Qed.

Lemma handleChange_empty_array_witness :
  let currentFilters :=
    Hook.currentFilters
      (Hook.handleChange (Hook.mkFilters None None None None (Some []))
         Hook.initial) in
  selection currentFilters VocabularyId = Some [""] /\
  active (selection currentFilters VocabularyId) = true /\
  (forall child,
     acceptsChild currentFilters child = true ->
     hd_error (get VocabularyId child) = Some "").
Proof.
  apply (@handleChange_empty_array
           (Hook.mkFilters None None None None (Some [])) Hook.initial
           VocabularyId).
  reflexivity.
Defined.

(** ** The applied-filters banner and clearing *)

Lemma active_toSelection (v : option (list string)) :
  v <> Some [] -> active (Hook.toSelection v) = active v.
Proof.
  destruct v as [[|x arr]|]; intros Hne; [congruence | | reflexivity].
  unfold Hook.toSelection.
  destruct (Text.split (Text.join (x :: arr))) as [|p ps] eqn:Hs; [|reflexivity].
  exfalso. exact (split_not_nil _ Hs).
Qed.

Lemma filterData_unconstrained originalData filters :
  noConstraint filters -> filterData originalData filters = originalData.
Proof.
  intros Hno. unfold filterData. rewrite <- (map_id originalData) at 2.
  apply map_ext. intros row. apply filterRow_noConstraint. exact Hno.
Qed.

Lemma hook_after_handleChange filters st :
  Table.hook (Table.filterDataEffect (Table.handleChange filters st))
  = Hook.handleChange filters (Table.hook st).
Proof. reflexivity. Qed.

Lemma selected_after_handleChange filters st :
  Table.selected (Table.filterDataEffect (Table.handleChange filters st))
  = filterData (Table.originalData st)
      (Hook.currentFilters (Hook.handleChange filters (Table.hook st))).
Proof. reflexivity. Qed.

(** X4. After [handleChange], provided no field reports an empty array,
    the applied-filters banner is shown exactly when the filter state
    carries a constraint; when it is not shown, the projection that follows
    hands the table the original data. *)
Theorem banner_matches_constraints
  (filters : Hook.Filters) (st : Table.State) :
  (forall field, Hook.filterValue filters field <> Some []) ->
  let st' := Table.filterDataEffect (Table.handleChange filters st) in
  (Hook.hasActiveFilters (Hook.filteredInfo (Table.hook st')) = true <->
   exists field,
     active (selection (Hook.currentFilters (Table.hook st')) field) = true) /\
  (Hook.hasActiveFilters (Hook.filteredInfo (Table.hook st')) = false ->
   Table.selected st' = Table.originalData st).
Proof.
  intros Hwf st'. unfold st'.
  rewrite hook_after_handleChange, selected_after_handleChange.
  set (hook' := Hook.handleChange filters (Table.hook st)).
  assert (forall field,
            active (selection (Hook.currentFilters hook') field)
            = active (Hook.filterValue filters field)) as Hsame.
  { intros field. unfold hook'. rewrite handleChange_selection.
    apply active_toSelection, Hwf. }
  assert (Hook.hasActiveFilters (Hook.filteredInfo hook') = true <->
          exists field, active (selection (Hook.currentFilters hook') field) = true)
    as Hiff.
  { change (Hook.filteredInfo hook') with filters.
    unfold Hook.hasActiveFilters. rewrite existsb_exists. split.
    - intros (field & _ & Hact). exists field. rewrite Hsame. exact Hact.
    - intros (field & Hact). exists field.
      split; [apply allFields_complete|]. rewrite <- Hsame. exact Hact. }
  split; [exact Hiff|].
  intros Hhidden. apply filterData_unconstrained. intros field.
  destruct (active (selection (Hook.currentFilters hook') field)) eqn:Hact;
    [|reflexivity].
  assert (Hook.hasActiveFilters (Hook.filteredInfo hook') = true) as Hshown
      by (apply Hiff; exists field; exact Hact).
  congruence.
Qed.

Lemma banner_matches_constraints_witness :
  let st := Table.mkState Hook.initial [Sample.diabetes3; Sample.snomed] [] in
  let st' :=
    Table.filterDataEffect
      (Table.handleChange (Hook.mkFilters None None None None None) st) in
  (Hook.hasActiveFilters (Hook.filteredInfo (Table.hook st')) = true <->
   exists field,
     active (selection (Hook.currentFilters (Table.hook st')) field) = true) /\
  Table.selected st' = [Sample.diabetes3; Sample.snomed].
Proof.
  intros st st'.
  destruct (@banner_matches_constraints
              (Hook.mkFilters None None None None None) st) as [Hiff Hrest].
  - intros field. destruct field; discriminate.
  - split; [exact Hiff|]. apply Hrest. reflexivity.
Defined.

(** X5. Pressing "clear filters" and letting the projection run hands the
    table the original data again, whatever was selected and shown before,
    and hides the applied-filters banner. *)
Theorem clear_filters_restores_original (st : Table.State) :
  let st' := Table.filterDataEffect (Table.modifiedClearFilters st) in
  Table.selected st' = Table.originalData st /\
  Table.originalData st' = Table.originalData st /\
  Hook.hasActiveFilters (Hook.filteredInfo (Table.hook st')) = false /\
  noConstraint (Hook.currentFilters (Table.hook st')).
Proof.
  simpl. split; [|split; [|split]].
  - apply filterData_unconstrained, noConstraint_default.
  - reflexivity.
  - reflexivity.
  - apply noConstraint_default.
Qed.

(** ** The projection applied twice, and what it can show *)

Lemma filterRow_idempotent filters row :
  childrenAreLeaves row ->
  filterRow filters (filterRow filters row) = filterRow filters row.
Proof.
  intros Hleaves.
  destruct (children row) as [cs|] eqn:Hcs.
  - destruct (Nat.le_gt_cases (List.length cs) 1) as [Hle|Hgt].
    + rewrite !(filterRow_small filters row Hcs Hle). reflexivity.
    + destruct (Nat.eq_dec (List.length (applyFiltersToChildren cs filters)) 1)
        as [Heq|Hne].
      * destruct (length_one _ Heq) as (only & Honly).
        rewrite (filterRow_promote filters row Hcs Hgt Honly).
        apply filterRow_leaf. apply (Hleaves cs only Hcs).
        assert (In only (filter (acceptsChild filters) cs)) as Hin
            by (unfold applyFiltersToChildren in Honly; rewrite Honly; left; reflexivity).
        apply filter_In in Hin. tauto.
      * rewrite (filterRow_narrow filters row Hcs Hgt Hne).
        set (accepted := applyFiltersToChildren cs filters) in *.
        assert (children (withChildren row accepted) = Some accepted) as Hout
            by reflexivity.
        destruct (Nat.le_gt_cases (List.length accepted) 1) as [Hle|Hgt'].
        -- apply (filterRow_small filters _ Hout Hle).
        -- rewrite (filterRow_narrow filters _ Hout Hgt');
             unfold accepted; rewrite applyFiltersToChildren_idempotent;
             [reflexivity | exact Hne].
  - rewrite !(filterRow_leaf filters row Hcs). reflexivity.
Qed.

(** X6. On a two-level forest the projection is idempotent: projecting
    the projected rows again with the same filter state changes nothing. *)
Theorem filterData_idempotent
  (originalData : list ConceptRow) (filters : FilterState) :
  (forall row, In row originalData -> childrenAreLeaves row) ->
  filterData (filterData originalData filters) filters
  = filterData originalData filters.
Proof.
  intros Hforest. unfold filterData. rewrite map_map.
  apply map_ext_in. intros row Hin.
  apply filterRow_idempotent, Hforest, Hin.
Qed.

Lemma filterData_idempotent_witness :
  filterData
    (filterData [Sample.diabetes3; Sample.snomed; Sample.singleton]
       (Sample.onlyVocabulary ["ICD10CM"]))
    (Sample.onlyVocabulary ["ICD10CM"])
  = filterData [Sample.diabetes3; Sample.snomed; Sample.singleton]
      (Sample.onlyVocabulary ["ICD10CM"]).
Proof.
  apply (@filterData_idempotent
           [Sample.diabetes3; Sample.snomed; Sample.singleton]
           (Sample.onlyVocabulary ["ICD10CM"])).
  intros row Hin cs c Hcs Hc. simpl in Hin.
  destruct Hin as [<-|[<-|[<-|[]]]]; simpl in Hcs;
    try discriminate Hcs; injection Hcs as <-; simpl in Hc;
    repeat (destruct Hc as [<-|Hc]; [reflexivity|]); destruct Hc.
Defined.

(** X7. On a two-level forest the projection never shows a concept that
    the original data does not hold: every leaf and every child of a group
    of the projected list is a leaf or a child of a group of the original
    list. *)
Theorem filterData_shows_only_original_rows
  (originalData : list ConceptRow) (filters : FilterState) (shown : ConceptRow) :
  (forall row, In row originalData -> childrenAreLeaves row) ->
  In shown (visitedRows (filterData originalData filters)) ->
  In shown (visitedRows originalData).
Proof.
  intros Hforest Hin. unfold visitedRows in *.
  apply in_flat_map in Hin. destruct Hin as (out & Hout & Hshown).
  unfold filterData in Hout. apply in_map_iff in Hout.
  destruct Hout as (row & <- & Hrow).
  apply in_flat_map. exists row. split; [exact Hrow|].
  destruct (filterRow_outcome filters row) as [Hsmall|cs child Hcs Hlen Hc Hacc Hone|cs Hcs Hlen Hne].
  - exact Hshown.
  - rewrite (Hforest row Hrow cs child Hcs Hc) in Hshown.
    destruct Hshown as [<-|[]]. rewrite Hcs. exact Hc.
  - simpl in Hshown. rewrite Hcs.
    apply filter_In in Hshown. tauto.
Qed.

Lemma filterData_shows_only_original_rows_witness :
  In Sample.icd10 (visitedRows [Sample.diabetes3; Sample.snomed]).
Proof.
  apply (@filterData_shows_only_original_rows
           [Sample.diabetes3; Sample.snomed]
           (Sample.onlyVocabulary ["ICD10CM"]) Sample.icd10).
  - intros row Hin cs c Hcs Hc. simpl in Hin.
    destruct Hin as [<-|[<-|[]]]; simpl in Hcs;
      try discriminate Hcs; injection Hcs as <-; simpl in Hc;
      repeat (destruct Hc as [<-|Hc]; [reflexivity|]); destruct Hc.
  - simpl. left. reflexivity.
Defined.

(** ** How constraints combine *)

Lemma acceptsChild_withSelection filters field sel child :
  active (selection filters field) = false ->
  acceptsChild (withSelection field (Some sel) filters) child
  = acceptsChild filters child && negb (rejects (Some sel) (get field child)).
Proof.
  intros Hinactive. apply Bool.eq_iff_eq_true.
  rewrite andb_true_iff, negb_true_iff, !acceptsChild_true_iff. split.
  - intros H. split.
    + intros field'. destruct (FilterField_eq_dec field field') as [<-|Hne].
      * apply rejects_inactive. exact Hinactive.
      * rewrite <- (selection_withSelection_other (Some sel) filters Hne). apply H.
    + rewrite <- (selection_withSelection_same field (Some sel) filters). apply H.
  - intros [Hall Hone] field'.
    destruct (FilterField_eq_dec field field') as [<-|Hne].
    + rewrite selection_withSelection_same. exact Hone.
    + rewrite (selection_withSelection_other (Some sel) filters Hne). apply Hall.
Qed.

(** X8. Filtering in two steps is filtering once: the children accepted
    under a filter state, filtered again by a single constraint on a field
    that state leaves free, are the children accepted under the state with
    that constraint added. *)
Theorem constraints_compose
  (cs : list ConceptRow) (filters : FilterState) (field : FilterField)
  (sel : list string) :
  active (selection filters field) = false ->
  applyFiltersToChildren (applyFiltersToChildren cs filters)
    (withSelection field (Some sel) defaultFilterState)
  = applyFiltersToChildren cs (withSelection field (Some sel) filters).
Proof.
  intros Hinactive. unfold applyFiltersToChildren.
  rewrite filter_filter_and. apply filter_ext. intros child.
  rewrite (@acceptsChild_withSelection filters field sel child Hinactive).
  rewrite (@acceptsChild_withSelection defaultFilterState field sel child)
    by (destruct field; reflexivity).
  rewrite (noConstraint_accepts child noConstraint_default). reflexivity.
Qed.

Lemma constraints_compose_witness :
  applyFiltersToChildren
    (applyFiltersToChildren [Sample.snomed; Sample.icd10; Sample.icd10obs]
       (Sample.onlyVocabulary ["ICD10CM"]))
    (withSelection DomainId (Some ["Condition"]) defaultFilterState)
  = applyFiltersToChildren [Sample.snomed; Sample.icd10; Sample.icd10obs]
      (withSelection DomainId (Some ["Condition"])
         (Sample.onlyVocabulary ["ICD10CM"])).
Proof.
  apply (@constraints_compose [Sample.snomed; Sample.icd10; Sample.icd10obs]
           (Sample.onlyVocabulary ["ICD10CM"]) DomainId ["Condition"]).
  reflexivity.
Defined.

Lemma rejects_same_values (a b : option (list string)) (values : list string) :
  (forall v, In v (selectedValues a) <-> In v (selectedValues b)) ->
  rejects a values = rejects b values.
Proof.
  intros Hsame.
  destruct a as [[|x a]|], b as [[|y b]|]; simpl in *; try reflexivity;
    try (exfalso; apply (Hsame y); left; reflexivity);
    try (exfalso; apply (Hsame x); left; reflexivity).
  f_equal. apply Bool.eq_iff_eq_true. rewrite !includes_In.
  split; intros (s & Hs & Hin); exists s; (split; [exact Hs|]); apply Hsame; exact Hin.
Qed.

(** X9. A selection acts as a set: two filter states that select the same
    values for every field, in whatever order and with whatever repetitions
    (an absent selection counting as an empty one), accept the same
    children. *)
Theorem selection_is_a_set
  (f g : FilterState) (cs : list ConceptRow) :
  (forall field v,
     In v (selectedValues (selection f field)) <->
     In v (selectedValues (selection g field))) ->
  applyFiltersToChildren cs f = applyFiltersToChildren cs g.
Proof.
  intros Hsame. unfold applyFiltersToChildren. apply filter_ext. intros child.
  apply Bool.eq_iff_eq_true. rewrite !acceptsChild_true_iff.
  split; intros H field.
  - rewrite <- (rejects_same_values _ _ _ (Hsame field)). apply H.
  - rewrite (rejects_same_values _ _ _ (Hsame field)). apply H.
Qed.

Lemma selection_is_a_set_witness :
  applyFiltersToChildren [Sample.snomed; Sample.icd10; Sample.icd10obs]
    (Sample.onlyVocabulary ["SNOMED"; "ICD10CM"; "SNOMED"])
  = applyFiltersToChildren [Sample.snomed; Sample.icd10; Sample.icd10obs]
      (Sample.onlyVocabulary ["ICD10CM"; "SNOMED"]).
Proof.
  apply (@selection_is_a_set
           (Sample.onlyVocabulary ["SNOMED"; "ICD10CM"; "SNOMED"])
           (Sample.onlyVocabulary ["ICD10CM"; "SNOMED"])
           [Sample.snomed; Sample.icd10; Sample.icd10obs]).
  intros field v. destruct field; simpl; tauto.
Defined.

Lemma accepts_after_widening filters field sel more child :
  sel <> [] ->
  acceptsChild (withSelection field (Some sel) filters) child = true ->
  acceptsChild (withSelection field (Some (sel ++ more)) filters) child = true.
Proof.
  intros Hne Hacc. rewrite acceptsChild_true_iff in *. intros field'.
  destruct (FilterField_eq_dec field field') as [<-|Hdiff].
  - specialize (Hacc field). rewrite selection_withSelection_same in *.
    rewrite rejects_false_iff in *. intros _.
    destruct sel as [|x sel]; [congruence|].
    destruct (Hacc eq_refl) as (arr & v & Harr & Hv & Hin).
    injection Harr as <-.
    exists ((x :: sel) ++ more), v. repeat split; [exact Hv|].
    apply in_or_app. left. exact Hin.
  - specialize (Hacc field').
    rewrite (selection_withSelection_other (Some sel) filters Hdiff) in Hacc.
    rewrite (selection_withSelection_other (Some (sel ++ more)) filters Hdiff).
    exact Hacc.
Qed.

(** X10. Within one field the selected values are alternatives: adding
    values to a non-empty selection never removes an accepted child, so every
    child accepted before is accepted after and the number of accepted
    children does not decrease. *)
Theorem wider_selection_never_drops_matches
  (cs : list ConceptRow) (filters : FilterState) (field : FilterField)
  (sel more : list string) :
  sel <> [] ->
  (forall child,
     In child (applyFiltersToChildren cs (withSelection field (Some sel) filters)) ->
     In child
       (applyFiltersToChildren cs
          (withSelection field (Some (sel ++ more)) filters))) /\
  List.length (applyFiltersToChildren cs (withSelection field (Some sel) filters))
    <= List.length
         (applyFiltersToChildren cs
            (withSelection field (Some (sel ++ more)) filters)).
Proof.
  intros Hne. unfold applyFiltersToChildren. split.
  - intros child Hin. apply filter_In in Hin. apply filter_In.
    destruct Hin as [Hin Hacc]. split; [exact Hin|].
    apply accepts_after_widening; assumption.
  - apply filter_length_mono. intros child _.
    apply accepts_after_widening. exact Hne.
Qed.

Lemma wider_selection_never_drops_matches_witness :
  In Sample.snomed
    (applyFiltersToChildren [Sample.snomed; Sample.icd10; Sample.icd10obs]
       (withSelection VocabularyId (Some (["SNOMED"] ++ ["ICD10CM"]))
          defaultFilterState)) /\
  List.length
    (applyFiltersToChildren [Sample.snomed; Sample.icd10; Sample.icd10obs]
       (withSelection VocabularyId (Some ["SNOMED"]) defaultFilterState))
    <= List.length
         (applyFiltersToChildren [Sample.snomed; Sample.icd10; Sample.icd10obs]
            (withSelection VocabularyId (Some (["SNOMED"] ++ ["ICD10CM"]))
               defaultFilterState)).
Proof.
  destruct (@wider_selection_never_drops_matches
              [Sample.snomed; Sample.icd10; Sample.icd10obs] defaultFilterState
              VocabularyId ["SNOMED"] ["ICD10CM"]) as [Hkept Hcount].
  - discriminate.
  - split; [|exact Hcount]. apply Hkept. simpl. left. reflexivity.
Defined.

(** ** Cells of projected rows *)

Lemma children_withChildren row cs : children (withChildren row cs) = Some cs.
Proof. reflexivity. Qed.

(** X11. Rendering commutes with the projection except on collapse.  For a
    group with more than one child whose accepted children are not exactly
    one, the cell of the projected row is the cell of the original row under
    the same filter state.  When exactly one child, a leaf, is accepted, the
    projected row shows that child's own field sequence, while the original
    group would show the child's first value. *)
Theorem render_projected_row
  (filters : FilterState) (row : ConceptRow) (cs : list ConceptRow)
  (field : FilterField) :
  children row = Some cs ->
  1 < List.length cs ->
  (List.length (applyFiltersToChildren cs filters) <> 1 ->
   renderCellValue filters (filterRow filters row) field
   = renderCellValue filters row field) /\
  (forall only,
     applyFiltersToChildren cs filters = [only] ->
     children only = None ->
     renderCellValue filters (filterRow filters row) field
       = CellField (get field only) /\
     renderCellValue filters row field
       = CellScalar (hd_error (get field only))).
Proof.
  intros Hcs Hlen. split.
  - intros Hne. rewrite (filterRow_narrow filters row Hcs Hlen Hne).
    unfold renderCellValue, applyFilterForConceptsWithChildren.
    rewrite Hcs, children_withChildren.
    rewrite applyFiltersToChildren_idempotent. reflexivity.
  - intros only Honly Hleaf.
    rewrite (filterRow_promote filters row Hcs Hlen Honly).
    unfold renderCellValue, applyFilterForConceptsWithChildren.
    rewrite Hleaf, Hcs, Honly. split; reflexivity.
Qed.

Lemma render_projected_row_witness :
  renderCellValue (Sample.onlyVocabulary ["ICD10CM"])
    (filterRow (Sample.onlyVocabulary ["ICD10CM"]) Sample.diabetes3) DomainId
  = renderCellValue (Sample.onlyVocabulary ["ICD10CM"]) Sample.diabetes3 DomainId
  /\ renderCellValue (Sample.onlyVocabulary ["SNOMED"])
       (filterRow (Sample.onlyVocabulary ["SNOMED"]) Sample.diabetes3) DomainId
     = CellField ["Condition"]
  /\ renderCellValue (Sample.onlyVocabulary ["SNOMED"]) Sample.diabetes3 DomainId
     = CellScalar (Some "Condition").
Proof.
  split.
  - apply (proj1 (@render_projected_row (Sample.onlyVocabulary ["ICD10CM"])
                    Sample.diabetes3
                    [Sample.snomed; Sample.icd10; Sample.icd10obs] DomainId
                    eq_refl ltac:(simpl; lia))).
    simpl. lia.
  - apply (proj2 (@render_projected_row (Sample.onlyVocabulary ["SNOMED"])
                    Sample.diabetes3
                    [Sample.snomed; Sample.icd10; Sample.icd10obs] DomainId
                    eq_refl ltac:(simpl; lia))
             Sample.snomed); reflexivity.
Defined.

(** X12. A group with more than one child none of which is accepted stays
    in the projection as a group without children: its id cell reads
    "0 concepts" and each of its field cells shows no tag. *)
Theorem zero_match_group_stays
  (filters : FilterState) (row : ConceptRow) (cs : list ConceptRow) :
  children row = Some cs ->
  1 < List.length cs ->
  Js.truthyNumber (concept_id row) = false ->
  applyFiltersToChildren cs filters = [] ->
  filterRow filters row = withChildren row [] /\
  idCell (filterRow filters row) = IdText "0 concepts" /\
  (forall field,
     renderCellValue filters (filterRow filters row) field = CellTags []).
Proof.
  intros Hcs Hlen Hid Hnone.
  assert (filterRow filters row = withChildren row []) as Hout.
  { rewrite (filterRow_narrow filters row Hcs Hlen), Hnone;
      [reflexivity | rewrite Hnone; discriminate]. }
  rewrite Hout. split; [reflexivity | split].
  - unfold idCell, renderId. simpl. rewrite Hid. reflexivity.
  - intros field. reflexivity.
Qed.

Lemma zero_match_group_stays_witness :
  filterRow (Sample.onlyVocabulary ["RxNorm"]) Sample.diabetes3
    = withChildren Sample.diabetes3 [] /\
  idCell (filterRow (Sample.onlyVocabulary ["RxNorm"]) Sample.diabetes3)
    = IdText "0 concepts" /\
  (forall field,
     renderCellValue (Sample.onlyVocabulary ["RxNorm"])
       (filterRow (Sample.onlyVocabulary ["RxNorm"]) Sample.diabetes3) field
     = CellTags []).
Proof.
  apply (@zero_match_group_stays (Sample.onlyVocabulary ["RxNorm"])
           Sample.diabetes3 [Sample.snomed; Sample.icd10; Sample.icd10obs]).
  - reflexivity.
  - simpl. lia.
  - reflexivity.
  - reflexivity.
Defined.

(** X13. A filter never adds a tag: every tag shown for the accepted
    children of a group is a tag of its unfiltered children. *)
Theorem filter_never_adds_a_tag
  (filters : FilterState) (cs : list ConceptRow) (field : FilterField)
  (tag : option string) :
  In tag (tagValues (applyFiltersToChildren cs filters) field) ->
  In tag (tagValues cs field).
Proof.
  rewrite !tagValues_distinctNonEmpty, !in_map_iff.
  intros (v & <- & Hv). exists v. split; [reflexivity|].
  rewrite distinctNonEmpty_In in *.
  destruct Hv as (Hne & child & Hchild & Hfirst).
  split; [exact Hne|]. exists child. split; [|exact Hfirst].
  unfold applyFiltersToChildren in Hchild. apply filter_In in Hchild. tauto.
Qed.

Lemma filter_never_adds_a_tag_witness :
  In (Some "ICD10CM")
    (tagValues [Sample.snomed; Sample.icd10; Sample.icd10obs] VocabularyId).
Proof.
  apply (@filter_never_adds_a_tag (Sample.onlyVocabulary ["ICD10CM"])
           [Sample.snomed; Sample.icd10; Sample.icd10obs] VocabularyId
           (Some "ICD10CM")).
  simpl. left. reflexivity.
Defined.

(** ** The option index against the rows it is built from *)

Lemma getFilterSelector_entries compare field rows :
  forallb Js.plainKey (map Js.propertyKey (collectConcepts field rows)) = true ->
  getFilterSelector compare field rows
  = map toFilterOption
      (objectEntries
         (numbered
            (tally (map Js.propertyKey
                      (arraySort compare (collectConcepts field rows)))))).
Proof.
  intros Hown. unfold getFilterSelector, createCountForFilter.
  rewrite countConcepts_tally; [reflexivity|].
  apply (forallb_perm _ (Permutation_sym (Permutation_map _ (arraySort_perm compare _)))).
  exact Hown.
Qed.

Lemma sorted_keys_perm compare (concepts : list (option string)) :
  Permutation (map Js.propertyKey (arraySort compare concepts))
    (map Js.propertyKey concepts).
Proof. apply Permutation_map, arraySort_perm. Qed.

Lemma index_value_In compare field rows (k : string) :
  forallb Js.plainKey (map Js.propertyKey (collectConcepts field rows)) = true ->
  In k (map value (getFilterSelector compare field rows)) <->
  In k (map Js.propertyKey (collectConcepts field rows)).
Proof.
  intros Hown. rewrite (getFilterSelector_entries compare field rows Hown).
  rewrite toFilterOption_value.
  set (keys' := map Js.propertyKey (arraySort compare (collectConcepts field rows))).
  assert (Permutation (map fst (objectEntries (numbered (tally keys'))))
            (firstOccurrences keys'))
    as Hperm by (rewrite <- numbered_keys; apply Permutation_map, objectEntries_perm).
  split; intros Hk.
  - apply (Permutation_in _ (sorted_keys_perm compare _)), firstOccurrences_In.
    apply (Permutation_in _ Hperm). exact Hk.
  - apply (Permutation_in _ (Permutation_sym Hperm)), firstOccurrences_In.
    apply (Permutation_in _ (Permutation_sym (sorted_keys_perm compare _))).
    exact Hk.
Qed.

Lemma index_option_text compare field rows (o : FilterOption) :
  forallb Js.plainKey (map Js.propertyKey (collectConcepts field rows)) = true ->
  In o (getFilterSelector compare field rows) ->
  text o
  = (value o ++ " ("
     ++ Js.numberToString
          (count_occ string_dec
             (map Js.propertyKey (collectConcepts field rows)) (value o))
     ++ ")")%string.
Proof.
  intros Hown. rewrite (getFilterSelector_entries compare field rows Hown).
  rewrite in_map_iff. intros (e & <- & He).
  apply (Permutation_in _ (objectEntries_perm _)) in He.
  apply numbered_In in He. destruct He as [_ Hcount].
  unfold toFilterOption. simpl. rewrite Hcount. simpl.
  assert (count_occ string_dec
            (map Js.propertyKey (arraySort compare (collectConcepts field rows)))
            (fst e)
          = count_occ string_dec
              (map Js.propertyKey (collectConcepts field rows)) (fst e)) as ->
      by (apply Permutation_count_occ, sorted_keys_perm).
  reflexivity.
Qed.

Lemma collectConcepts_visited field rows :
  collectConcepts field rows
  = map (fun r => hd_error (get field r)) (visitedRows rows).
Proof.
  unfold collectConcepts, visitedRows.
  induction rows as [|row rows IH]; simpl; [reflexivity|].
  rewrite map_app, IH. destruct (children row); reflexivity.
Qed.

Lemma visited_value_is_offered compare field rows r (v : string) :
  forallb Js.plainKey (map Js.propertyKey (collectConcepts field rows)) = true ->
  In r (visitedRows rows) ->
  hd_error (get field r) = Some v ->
  In v (map value (getFilterSelector compare field rows)).
Proof.
  intros Hown Hr Hv. apply (index_value_In compare field rows v Hown).
  rewrite collectConcepts_visited, map_map.
  apply in_map_iff. exists r. rewrite Hv. auto.
Qed.

(** X14. Every tag a cell can show is offered as a filter option.  When
    no value of the field among the loaded rows names a member of
    [Object.prototype], then for a group of the loaded rows and any filter
    state each tag of the field is the value of an option of the index built
    from those rows. *)
Theorem tags_are_offered_as_options
  (compare : string -> string -> comparison) (rows : list ConceptRow)
  (filters : FilterState) (row : ConceptRow) (cs : list ConceptRow)
  (field : FilterField) (tag : string) :
  forallb Js.plainKey (map Js.propertyKey (collectConcepts field rows)) = true ->
  In row rows ->
  children row = Some cs ->
  In (Some tag) (tagValues (applyFiltersToChildren cs filters) field) ->
  In tag (map value (getFilterSelector compare field rows)).
Proof.
  intros Hown Hrow Hcs Htag.
  rewrite tagValues_distinctNonEmpty, in_map_iff in Htag.
  destruct Htag as (v & Hv & Hin). injection Hv as ->.
  apply distinctNonEmpty_In in Hin.
  destruct Hin as (_ & child & Hchild & Hfirst).
  apply (@visited_value_is_offered compare field rows child tag Hown);
    [|exact Hfirst].
  unfold visitedRows. apply in_flat_map. exists row. split; [exact Hrow|].
  rewrite Hcs. unfold applyFiltersToChildren in Hchild.
  apply filter_In in Hchild. tauto.
Qed.

Lemma tags_are_offered_as_options_witness :
  In "ICD10CM"
    (map value
       (getFilterSelector Sample.codePointCompare VocabularyId
          [Sample.snomed; Sample.diabetes3])).
Proof.
  apply (@tags_are_offered_as_options Sample.codePointCompare
           [Sample.snomed; Sample.diabetes3]
           (withSelection DomainId (Some ["Condition"]) defaultFilterState)
           Sample.diabetes3 [Sample.snomed; Sample.icd10; Sample.icd10obs]
           VocabularyId "ICD10CM").
  - reflexivity.
  - simpl. right. left. reflexivity.
  - reflexivity.
  - simpl. right. left. reflexivity.
Defined.

Lemma accepts_single_value field (v : string) (r : ConceptRow) :
  acceptsChild (withSelection field (Some [v]) defaultFilterState) r
  = Js.includes [v] (hd_error (get field r)).
Proof.
  rewrite (@acceptsChild_withSelection defaultFilterState field [v] r)
    by (destruct field; reflexivity).
  rewrite (noConstraint_accepts r noConstraint_default). simpl.
  apply negb_involutive.
Qed.

Lemma count_of_value_is_match_count field (v : string) (visited : list ConceptRow) :
  Forall (fun r => get field r <> []) visited ->
  count_occ string_dec
    (map Js.propertyKey (map (fun r => hd_error (get field r)) visited)) v
  = List.length
      (applyFiltersToChildren visited
         (withSelection field (Some [v]) defaultFilterState)).
Proof.
  unfold applyFiltersToChildren.
  induction 1 as [|r visited Hr _ IH]; simpl; [reflexivity|].
  rewrite accepts_single_value.
  destruct (get field r) as [|s rest] eqn:Hget; [congruence|]. simpl.
  rewrite orb_false_r.
  destruct (string_dec s v) as [->|Hne].
  - rewrite String.eqb_refl. simpl. rewrite IH. reflexivity.
  - rewrite (proj2 (String.eqb_neq s v) Hne). exact IH.
Qed.

(** X15. The count in an option's label is the number of matches the
    option gives.  When every leaf and every child has a value for the
    field and none of these values names a member of [Object.prototype], the
    label of an option reads "value (n)" where n is the number of leaves and
    children accepted when that value alone is selected for the field; n is
    never zero. *)
Theorem option_count_is_match_count
  (compare : string -> string -> comparison) (field : FilterField)
  (rows : list ConceptRow) (o : FilterOption) :
  forallb Js.plainKey (map Js.propertyKey (collectConcepts field rows)) = true ->
  Forall (fun r => get field r <> []) (visitedRows rows) ->
  In o (getFilterSelector compare field rows) ->
  let matched :=
    applyFiltersToChildren (visitedRows rows)
      (withSelection field (Some [value o]) defaultFilterState) in
  text o
  = (value o ++ " (" ++ Js.numberToString (List.length matched) ++ ")")%string
  /\ 0 < List.length matched.
Proof.
  intros Hown Hvalues Ho matched. unfold matched.
  rewrite <- (@count_of_value_is_match_count field (value o) _ Hvalues).
  rewrite <- collectConcepts_visited. split.
  - apply (@index_option_text compare field rows o Hown). exact Ho.
  - apply count_occ_In, (index_value_In compare field rows (value o) Hown).
    apply in_map. exact Ho.
Qed.

Lemma option_count_is_match_count_witness :
  text {| text := "ICD10CM (2)"; value := "ICD10CM" |}
  = ("ICD10CM" ++ " ("
     ++ Js.numberToString
          (List.length
             (applyFiltersToChildren
                (visitedRows [Sample.snomed; Sample.diabetes3])
                (withSelection VocabularyId (Some ["ICD10CM"])
                   defaultFilterState)))
     ++ ")")%string
  /\ 0 < List.length
           (applyFiltersToChildren
              (visitedRows [Sample.snomed; Sample.diabetes3])
              (withSelection VocabularyId (Some ["ICD10CM"])
                 defaultFilterState)).
Proof.
  apply (@option_count_is_match_count Sample.codePointCompare VocabularyId
           [Sample.snomed; Sample.diabetes3]
           {| text := "ICD10CM (2)"; value := "ICD10CM" |}).
  - reflexivity.
  - repeat constructor; discriminate.
  - simpl. left. reflexivity.
Defined.

Lemma list_sum_map_add (A : Type) (f g : A -> nat) (l : list A) :
  list_sum (map (fun x => f x + g x) l) = list_sum (map f l) + list_sum (map g l).
Proof. induction l as [|x l IH]; simpl; [reflexivity | rewrite IH; lia]. Qed.

Lemma list_sum_indicator (a : string) (ks : list string) :
  list_sum (map (fun x => if string_dec a x then 1 else 0) ks)
  = count_occ string_dec ks a.
Proof.
  induction ks as [|x ks IH]; simpl; [reflexivity|].
  rewrite IH. destruct (string_dec a x) as [->|Hne].
  - destruct (string_dec x x); [reflexivity | contradiction].
  - destruct (string_dec x a); [congruence | reflexivity].
Qed.

Lemma counts_over_distinct_keys (l ks : list string) :
  NoDup ks -> incl l ks ->
  list_sum (map (count_occ string_dec l) ks) = List.length l.
Proof.
  intros Hnd. induction l as [|a l IH]; intros Hincl; simpl.
  - clear Hnd Hincl. induction ks as [|x ks IHks]; simpl; [reflexivity | exact IHks].
  - rewrite (map_ext (fun x => if string_dec a x then S (count_occ string_dec l x)
                               else count_occ string_dec l x)
               (fun x => (if string_dec a x then 1 else 0) + count_occ string_dec l x))
      by (intros x; destruct (string_dec a x); reflexivity).
    rewrite list_sum_map_add, list_sum_indicator.
    rewrite IH by (intros x Hx; apply Hincl; right; exact Hx).
    assert (count_occ string_dec ks a = 1) as ->; [|reflexivity].
    apply NoDup_count_occ'; [exact Hnd | apply Hincl; left; reflexivity].
Qed.

Lemma tally_sum (keys : list string) :
  list_sum (map snd (tally keys)) = List.length keys.
Proof.
  unfold tally. rewrite map_map. simpl.
  apply counts_over_distinct_keys.
  - apply firstOccurrences_NoDup.
  - intros x Hx. apply firstOccurrences_In. exact Hx.
Qed.

Section EntriesMap.

Variables V W : Type.
Variable f : V -> W.

Let onValue (e : string * V) : string * W := (fst e, f (snd e)).
Let onIndexed (p : N * (string * V)) : N * (string * W) := (fst p, onValue (snd p)).

Lemma insertIndex_map (p : N * (string * V)) (l : list (N * (string * V))) :
  insertIndex (onIndexed p) (map onIndexed l) = map onIndexed (insertIndex p l).
Proof.
  induction l as [|y l IH]; simpl; [reflexivity|].
  destruct (N.leb (fst p) (fst y)); simpl; [reflexivity|].
  rewrite IH. reflexivity.
Qed.

Lemma indexEntries_map (o : list (string * V)) :
  indexEntries (map onValue o) = map onIndexed (indexEntries o).
Proof.
  unfold indexEntries. induction o as [|e o IH]; simpl; [reflexivity|].
  rewrite IH. destruct (Js.arrayIndex (fst e)); reflexivity.
Qed.

Lemma sortIndexed_map (l : list (N * (string * V))) :
  fold_right (@insertIndex W) [] (map onIndexed l)
  = map onIndexed (fold_right (@insertIndex V) [] l).
Proof.
  induction l as [|q l IH]; simpl; [reflexivity|].
  rewrite IH. apply insertIndex_map.
Qed.

Lemma objectEntries_map (o : list (string * V)) :
  objectEntries (map onValue o) = map onValue (objectEntries o).
Proof.
  unfold objectEntries.
  rewrite map_app, indexEntries_map, sortIndexed_map, !map_map, filter_map_comm.
  reflexivity.
Qed.

End EntriesMap.

Lemma objectEntries_numbered (entries : list (string * nat)) :
  objectEntries (numbered entries) = numbered (objectEntries entries).
Proof. apply (objectEntries_map CountNumber). Qed.

(** X16. When no value of the field among the loaded rows names a member
    of [Object.prototype], the counts of the field's options add up to the
    number of leaves and children in the loaded rows: every concept is
    counted once, none is dropped. *)
Theorem option_counts_add_up
  (compare : string -> string -> comparison) (field : FilterField)
  (rows : list ConceptRow) :
  forallb Js.plainKey (map Js.propertyKey (collectConcepts field rows)) = true ->
  exists entries : list (string * nat),
    getFilterSelector compare field rows
    = map toFilterOption (numbered entries) /\
    list_sum (map snd entries) = List.length (visitedRows rows).
Proof.
  intros Hown.
  exists (objectEntries
            (tally (map Js.propertyKey
                      (arraySort compare (collectConcepts field rows))))).
  split.
  - rewrite <- objectEntries_numbered. apply getFilterSelector_entries. exact Hown.
  - rewrite (Permutation_list_sum
               (Permutation_map snd (objectEntries_perm _))).
    rewrite tally_sum, length_map.
    rewrite (Permutation_length (arraySort_perm compare _)).
    rewrite collectConcepts_visited. apply length_map.
Qed.

Lemma option_counts_add_up_witness :
  exists entries : list (string * nat),
    getFilterSelector Sample.codePointCompare VocabularyId
      [Sample.snomed; Sample.diabetes3; Sample.emptyVocabulary]
    = map toFilterOption (numbered entries) /\
    list_sum (map snd entries)
    = List.length
        (visitedRows [Sample.snomed; Sample.diabetes3; Sample.emptyVocabulary]).
Proof.
  apply (@option_counts_add_up Sample.codePointCompare VocabularyId
           [Sample.snomed; Sample.diabetes3; Sample.emptyVocabulary]).
  reflexivity.
Defined.

(** ** The option index and the order of the rows *)

Lemma flat_map_perm (A B : Type) (f : A -> list B) (l l' : list A) :
  Permutation l l' -> Permutation (flat_map f l) (flat_map f l').
Proof.
  induction 1 as [|x l l' _ IH|x y l|l l' l'' _ IH1 _ IH2]; simpl.
  - constructor.
  - apply Permutation_app_head, IH.
  - rewrite !app_assoc. apply Permutation_app_tail, Permutation_app_comm.
  - eapply perm_trans; eassumption.
Qed.

Lemma tally_perm (keys keys' : list string) :
  Permutation keys keys' -> Permutation (tally keys) (tally keys').
Proof.
  intros Hperm. unfold tally.
  rewrite (map_ext (fun k => (k, count_occ string_dec keys k))
             (fun k => (k, count_occ string_dec keys' k)))
    by (intros k; f_equal; apply Permutation_count_occ; exact Hperm).
  apply Permutation_map. apply NoDup_Permutation.
  - apply firstOccurrences_NoDup.
  - apply firstOccurrences_NoDup.
  - intros k. rewrite !firstOccurrences_In. split; intros Hk.
    + apply (Permutation_in _ Hperm). exact Hk.
    + apply (Permutation_in _ (Permutation_sym Hperm)). exact Hk.
Qed.

(** X17. When no value of the field among the loaded rows names a member
    of [Object.prototype], the options of the field do not depend on the
    order of the loaded rows, up to their own order: any rearrangement of
    the rows gives the same options with the same labels, whatever the
    comparator is. *)
Theorem index_ignores_row_order
  (compare : string -> string -> comparison) (field : FilterField)
  (rows rows' : list ConceptRow) :
  forallb Js.plainKey (map Js.propertyKey (collectConcepts field rows)) = true ->
  Permutation rows rows' ->
  Permutation (getFilterSelector compare field rows)
    (getFilterSelector compare field rows').
Proof.
  intros Hown Hperm.
  assert (Permutation (collectConcepts field rows) (collectConcepts field rows'))
    as Hconcepts by (unfold collectConcepts; apply flat_map_perm; exact Hperm).
  assert (forallb Js.plainKey (map Js.propertyKey (collectConcepts field rows')) = true)
    as Hown'
      by (apply (forallb_perm _ (Permutation_map _ Hconcepts)); exact Hown).
  rewrite (getFilterSelector_entries compare field rows Hown).
  rewrite (getFilterSelector_entries compare field rows' Hown').
  apply Permutation_map.
  eapply perm_trans; [apply objectEntries_perm|].
  eapply perm_trans; [|apply Permutation_sym, objectEntries_perm].
  unfold numbered. apply Permutation_map, tally_perm.
  eapply perm_trans; [apply sorted_keys_perm|].
  eapply perm_trans; [|apply Permutation_sym, sorted_keys_perm].
  apply Permutation_map. exact Hconcepts.
Qed.

Lemma index_ignores_row_order_witness :
  Permutation
    (getFilterSelector Sample.codePointCompare VocabularyId
       [Sample.snomed; Sample.diabetes3; Sample.emptyVocabulary])
    (getFilterSelector Sample.codePointCompare VocabularyId
       [Sample.diabetes3; Sample.emptyVocabulary; Sample.snomed]).
Proof.
  apply (@index_ignores_row_order Sample.codePointCompare VocabularyId
           [Sample.snomed; Sample.diabetes3; Sample.emptyVocabulary]
           [Sample.diabetes3; Sample.emptyVocabulary; Sample.snomed]).
  - reflexivity.
  - apply (Permutation_cons_append [Sample.diabetes3; Sample.emptyVocabulary]
             Sample.snomed).
Defined.

(** ** The applied-filters banner *)

Lemma banner_line_In filteredInfo field label (values : list string) :
  In (label, values) (Banner.line filteredInfo field) <->
  label = Banner.filterLabels field /\
  Hook.filterValue filteredInfo field = Some values /\
  values <> [].
Proof.
  unfold Banner.line.
  destruct (Hook.filterValue filteredInfo field) as [[|x arr]|]; simpl.
  - split; [tauto | intros (_ & H & Hne); injection H as <-; congruence].
  - split.
    + intros [H|[]]. injection H as <- <-. repeat split. discriminate.
    + intros (-> & H & _). injection H as <-. left. reflexivity.
  - split; [tauto | intros (_ & H & _); discriminate].
Qed.

(** X18. The banner shows the constraints in force.  After [handleChange]
    with selections that are non-empty and free of commas, a line with a
    label and values is in the banner exactly when some field with that
    label carries those values as a non-empty selection of the filter
    state. *)
Theorem banner_shows_constraints_in_force
  (filters : Hook.Filters) (st : Hook.State) (label : string)
  (values : list string) :
  (forall field arr,
     Hook.filterValue filters field = Some arr ->
     arr <> [] /\ Forall (fun v => Text.hasComma v = false) arr) ->
  let hook' := Hook.handleChange filters st in
  (exists lines,
     Banner.renderFilterSection (Hook.filteredInfo hook') = Some lines /\
     In (label, values) lines)
  <->
  (exists field,
     label = Banner.filterLabels field /\
     selection (Hook.currentFilters hook') field = Some values /\
     values <> []).
Proof.
  intros Hwf hook'.
  assert (forall field,
            selection (Hook.currentFilters hook') field
            = Hook.filterValue filters field) as Hmirror
      by (intros field; apply handleChange_mirrors_filters; exact Hwf).
  change (Hook.filteredInfo hook') with filters.
  unfold Banner.renderFilterSection. split.
  - intros (lines & Hsection & Hin).
    destruct (Hook.hasActiveFilters filters);
      cbv beta iota delta [negb] in Hsection; [|discriminate].
    injection Hsection as Hlines. rewrite <- Hlines in Hin.
    change (In (label, values) (flat_map (Banner.line filters) allFields)) in Hin.
    apply in_flat_map in Hin.
    destruct Hin as (field & _ & Hline). apply banner_line_In in Hline.
    exists field. rewrite Hmirror. exact Hline.
  - intros (field & Hlabel & Hsel & Hne). rewrite Hmirror in Hsel.
    assert (Hook.hasActiveFilters filters = true) as ->.
    { unfold Hook.hasActiveFilters. apply existsb_exists. exists field.
      split; [apply allFields_complete|]. rewrite Hsel.
      destruct values; [congruence | reflexivity]. }
    cbv beta iota delta [negb]. eexists. split; [reflexivity|].
    apply in_flat_map. exists field. split; [apply allFields_complete|].
    apply banner_line_In. auto.
Qed.

Lemma banner_shows_constraints_in_force_witness :
  let filters :=
    Hook.mkFilters None (Some ["Condition"; "Drug"]) None None (Some ["SNOMED"]) in
  let hook' := Hook.handleChange filters Hook.initial in
  (exists lines,
     Banner.renderFilterSection (Hook.filteredInfo hook') = Some lines /\
     In ("domain", ["Condition"; "Drug"]) lines)
  <->
  (exists field,
     "domain" = Banner.filterLabels field /\
     selection (Hook.currentFilters hook') field = Some ["Condition"; "Drug"] /\
     ["Condition"; "Drug"] <> []).
Proof.
  apply (@banner_shows_constraints_in_force
           (Hook.mkFilters None (Some ["Condition"; "Drug"]) None None
              (Some ["SNOMED"]))
           Hook.initial "domain" ["Condition"; "Drug"]).
  intros field arr Hsel.
  destruct field; simpl in Hsel; try discriminate Hsel;
    injection Hsel as <-; (split; [discriminate | repeat constructor]).
Defined.

(** ** The renderer of [ConceptTableCore] *)

(** X19. The cell renderer of [ConceptTableCore] shows a group as the
    filtered renderer does when nothing is selected, as long as the group
    does not have exactly one child; a group with exactly one child is shown
    as a tag by [ConceptTableCore] and as a scalar by [ConceptTable]. *)
Theorem core_renderer_is_the_unfiltered_renderer
  (filters : FilterState) (row : ConceptRow) (cs : list ConceptRow)
  (field : FilterField) :
  noConstraint filters ->
  children row = Some cs ->
  (List.length cs <> 1 ->
   renderCellValue filters row field = CoreCells.renderCellValue row field) /\
  (forall only,
     cs = [only] ->
     renderCellValue filters row field = CellScalar (hd_error (get field only)) /\
     CoreCells.renderCellValue row field
     = CellTags (filter Js.truthy [hd_error (get field only)])).
Proof.
  intros Hno Hcs.
  assert (applyFiltersToChildren cs filters = cs) as Hall
      by (apply filter_all; intros; apply noConstraint_accepts; exact Hno).
  unfold renderCellValue, CoreCells.renderCellValue,
    applyFilterForConceptsWithChildren.
  rewrite Hcs, Hall. split.
  - intros Hne. destruct cs as [|x [|y l]]; simpl in Hne; congruence.
  - intros only ->. split; reflexivity.
Qed.

Lemma core_renderer_is_the_unfiltered_renderer_witness :
  renderCellValue defaultFilterState Sample.diabetes3 VocabularyId
  = CoreCells.renderCellValue Sample.diabetes3 VocabularyId.
Proof.
  apply (proj1 (@core_renderer_is_the_unfiltered_renderer defaultFilterState
                  Sample.diabetes3
                  [Sample.snomed; Sample.icd10; Sample.icd10obs] VocabularyId
                  noConstraint_default eq_refl)).
  simpl. lia.
Defined.

(** ** The recommendations table *)

Section RecommendationRows.

Variable expandStandard : string -> string.
Variable expandInvalid : option string -> string.

Lemma toRow_get field rec :
  get field (Recommendations.toRow expandStandard expandInvalid rec)
  = [Recommendations.fieldValue expandStandard expandInvalid field rec].
Proof. destruct field; reflexivity. Qed.

Lemma transformedData_keys field recs :
  map Js.propertyKey
    (collectConcepts field
       (Recommendations.transformedData expandStandard expandInvalid recs))
  = map (Recommendations.fieldValue expandStandard expandInvalid field) recs.
Proof.
  unfold Recommendations.transformedData, collectConcepts.
  induction recs as [|rec recs IH]; simpl; [reflexivity|].
  rewrite IH, toRow_get. reflexivity.
Qed.

End RecommendationRows.

(** X20. In the recommendations table every recommendation becomes a leaf
    with exactly one value per field, and, when none of these values names a
    member of [Object.prototype], the option index of a field counts
    recommendations: an option's value is the field value of some
    recommendation and its label reads "value (n)" with n the number of
    recommendations that have this value. *)
Theorem recommendation_options_count_recommendations
  (expandStandard : string -> string) (expandInvalid : option string -> string)
  (compare : string -> string -> comparison) (field : FilterField)
  (recs : list Recommendations.RecommendedConcept) :
  let rows := Recommendations.transformedData expandStandard expandInvalid recs in
  let values :=
    map (Recommendations.fieldValue expandStandard expandInvalid field) recs in
  List.length rows = List.length recs /\
  (forall row,
     In row rows ->
     children row = None /\ forall f, List.length (get f row) = 1) /\
  (forallb Js.plainKey values = true ->
   forall o,
     In o (Core.getFilterSelector compare field rows) ->
     In (value o) values /\
     text o
     = (value o ++ " ("
        ++ Js.numberToString (count_occ string_dec values (value o))
        ++ ")")%string).
Proof.
  intros rows values. split; [|split].
  - unfold rows, Recommendations.transformedData. apply length_map.
  - intros row Hrow. unfold rows, Recommendations.transformedData in Hrow.
    apply in_map_iff in Hrow. destruct Hrow as (rec & <- & _).
    split; [reflexivity|]. intros f. rewrite toRow_get. reflexivity.
  - intros Hown o Ho. rewrite Core_getFilterSelector_same in Ho.
    unfold values in *. rewrite <- transformedData_keys in *. split.
    + apply (index_value_In compare field rows (value o) Hown).
      apply in_map. exact Ho.
    + apply (@index_option_text compare field rows o Hown). exact Ho.
Qed.

Lemma recommendation_options_count_recommendations_witness :
  let o := {| text := "SNOMED (2)"; value := "SNOMED" |} in
  In (value o) ["SNOMED"; "SNOMED"] /\
  text o
  = (value o ++ " ("
     ++ Js.numberToString (count_occ string_dec ["SNOMED"; "SNOMED"] (value o))
     ++ ")")%string.
Proof.
  intros o.
  apply (proj2 (proj2 (@recommendation_options_count_recommendations
                         (fun s => s) (fun r => Js.propertyKey r)
                         Sample.codePointCompare VocabularyId
                         [Recommendations.mkRecommendedConcept 1 "Diabetes"
                            "SNOMED" "Condition" "Clinical Finding" "73211009"
                            "S" None (Qmake 9 10) 7;
                          Recommendations.mkRecommendedConcept 2
                            "Diabetes mellitus" "SNOMED" "Condition"
                            "Clinical Finding" "44054006" "S" (Some "")
                            (Qmake 8 10) 7])) eq_refl o).
  simpl. left. reflexivity.
Defined.

(** ** The MCP server *)

Lemma zString_bounds lo hi v s :
  Mcp.zString lo hi v = Some s ->
  v = Some (Mcp.VString s) /\ lo <= Mcp.jsLength s <= hi.
Proof.
  unfold Mcp.zString. destruct v as [[| | |x|]|]; try discriminate.
  destruct (Nat.leb_spec lo (Mcp.jsLength x)); simpl; [|discriminate].
  destruct (Nat.leb_spec (Mcp.jsLength x) hi); [|discriminate].
  intros Heq. injection Heq as ->. auto.
Qed.

Lemma zInt_bounds lo hi v z :
  Mcp.zInt lo hi v = Some z -> (lo <= z <= hi)%Z.
Proof.
  unfold Mcp.zInt. destruct v as [| |n| |]; try discriminate.
  destruct (Mcp.integerValue n) as [k|]; [|discriminate].
  destruct (Z.leb_spec lo k); simpl; [|discriminate].
  destruct (Z.leb_spec k hi); [|discriminate].
  intros Heq. injection Heq as ->. auto.
Qed.

Lemma zOptionalInt_bounds lo hi v (x : option Z) d :
  Mcp.zOptionalInt lo hi v = Some x ->
  (lo <= d <= hi)%Z ->
  (lo <= Mcp.withDefault d x <= hi)%Z.
Proof.
  unfold Mcp.zOptionalInt. destruct v as [w|].
  - destruct (Mcp.zInt lo hi w) as [z|] eqn:Hz; [|discriminate].
    intros H _. injection H as <-. simpl. eapply zInt_bounds. exact Hz.
  - intros H Hd. injection H as <-. exact Hd.
Qed.

Lemma zPositiveInt_bounds v z : Mcp.zPositiveInt v = Some z -> (0 < z)%Z.
Proof.
  unfold Mcp.zPositiveInt. destruct v as [[| |n| |]|]; try discriminate.
  destruct (Mcp.integerValue n) as [k|]; [|discriminate].
  destruct (Z.ltb_spec 0 k); [|discriminate].
  intros Heq. injection Heq as ->. assumption.
Qed.

Lemma validated_call (A : Type) (parsed : option A) (f : A -> Mcp.ApiCall) call :
  Mcp.validated parsed f = inr call ->
  exists input, parsed = Some input /\ call = f input.
Proof.
  unfold Mcp.validated. destruct parsed as [input|]; [|discriminate].
  intros H. injection H as <-. eauto.
Qed.

Lemma parseConceptIdInput_bounds args i :
  Mcp.parseConceptIdInput args = Some i -> (0 < i)%Z.
Proof.
  unfold Mcp.parseConceptIdInput. destruct args as [o|]; [|discriminate].
  apply zPositiveInt_bounds.
Qed.

Lemma plan_inRange name args call :
  Mcp.plan name args = inr call -> Mcp.inRange call.
Proof.
  unfold Mcp.plan.
  destruct (String.eqb name "search_concepts").
  { intros H. apply validated_call in H. destruct H as (input & Hparse & ->).
    unfold Mcp.parseSearchInput in Hparse. destruct args as [o|]; [|discriminate].
    destruct (Mcp.zString 1 500 (Mcp.property "query" o)) as [q|] eqn:Hq;
      [|discriminate].
    destruct (Mcp.zOptionalString (Mcp.property "vocabulary_id" o)); [|discriminate].
    destruct (Mcp.zOptionalString (Mcp.property "standard_concept" o)); [|discriminate].
    destruct (Mcp.zOptionalString (Mcp.property "domain_id" o)); [|discriminate].
    destruct (Mcp.zOptionalString (Mcp.property "concept_class_id" o)); [|discriminate].
    destruct (Mcp.zOptionalInt 1 150 (Mcp.property "limit" o)) as [l|] eqn:Hl;
      [|discriminate].
    injection Hparse as <-. simpl. split.
    - eapply zString_bounds. exact Hq.
    - eexists. split; [reflexivity|].
      eapply zOptionalInt_bounds; [exact Hl | lia]. }
  destruct (String.eqb name "get_concept_by_id").
  { intros H. apply validated_call in H. destruct H as (i & Hparse & ->).
    eapply parseConceptIdInput_bounds. exact Hparse. }
  destruct (String.eqb name "get_concept_relationships").
  { intros H. apply validated_call in H. destruct H as (i & Hparse & ->).
    eapply parseConceptIdInput_bounds. exact Hparse. }
  destruct (String.eqb name "get_concept_phoebe").
  { intros H. apply validated_call in H. destruct H as (i & Hparse & ->).
    eapply parseConceptIdInput_bounds. exact Hparse. }
  destruct (String.eqb name "get_concept_definition").
  { intros H. apply validated_call in H. destruct H as (i & Hparse & ->).
    eapply parseConceptIdInput_bounds. exact Hparse. }
  destruct (String.eqb name "expand_concept_hierarchy"); [|discriminate].
  intros H. apply validated_call in H. destruct H as (input & Hparse & ->).
  unfold Mcp.parseExpandConceptInput in Hparse. destruct args as [o|]; [|discriminate].
  destruct (Mcp.zPositiveInt (Mcp.property "id" o)) as [i|] eqn:Hi; [|discriminate].
  destruct (Mcp.zOptionalInt 0 10 (Mcp.property "childLevels" o)) as [c|] eqn:Hc;
    [|discriminate].
  destruct (Mcp.zOptionalInt 0 10 (Mcp.property "parentLevels" o)) as [p|] eqn:Hp;
    [|discriminate].
  injection Hparse as <-. simpl. split; [|split].
  - eapply zPositiveInt_bounds. exact Hi.
  - eapply zOptionalInt_bounds; [exact Hc | lia].
  - eapply zOptionalInt_bounds; [exact Hp | lia].
Qed.

(** A query is measured in UTF-16 code units: 251 times U+00E9, 502 bytes
    in UTF-8, is within the bound of 500 and reaches the API client. *)
Lemma accented_query_is_accepted :
  let q := String.concat ""
             (repeat (String (ascii_of_nat 195) (String (ascii_of_nat 169) ""))
                251) in
  String.length q = 502 /\
  Mcp.jsLength q = 251 /\
  Mcp.plan "search_concepts" (Some [("query", Mcp.VString q)])
  = inr (Mcp.Search q (Mcp.mkSearchOptions None None None None (Some 25%Z))).
Proof. vm_compute. repeat split. Qed.

(** X21. Only validated calls reach the API client: whatever the tool
    name and the arguments, the answer of the handler depends on the API
    client only through calls within the bounds of the schemas (a query of 1
    to 500 UTF-16 code units with a limit from 1 to 150, a positive integer
    id, levels from 0 to 10). *)
Theorem only_validated_calls_reach_the_api
  (Payload : Type) (api api' : Mcp.ApiCall -> Mcp.Thrown + Payload)
  (zodMessage : string -> option Mcp.Arguments -> string)
  (answerText : Mcp.ApiCall -> Payload -> string)
  (name : string) (args : option Mcp.Arguments) :
  (forall call, Mcp.inRange call -> api call = api' call) ->
  Mcp.callTool api zodMessage answerText name args
  = Mcp.callTool api' zodMessage answerText name args.
Proof.
  intros Hsame. unfold Mcp.callTool.
  destruct (Mcp.plan name args) as [rejection|call] eqn:Hplan; [reflexivity|].
  rewrite (Hsame call (@plan_inRange name args call Hplan)). reflexivity.
Qed.

Lemma only_validated_calls_reach_the_api_witness :
  let api : Mcp.ApiCall -> Mcp.Thrown + string := fun _ => inr "found" in
  let api' : Mcp.ApiCall -> Mcp.Thrown + string :=
    fun call =>
      match call with
      | Mcp.GetConceptById i =>
          if Z.ltb 0 i then inr "found" else inl (Mcp.ErrorObject "no such id")
      | _ => inr "found"
      end in
  Mcp.callTool api (fun _ _ => "issues") (fun _ text => text)
    "get_concept_by_id" (Some [("id", Mcp.VNumber (Mcp.Finite (inject_Z (-3))))])
  = Mcp.callTool api' (fun _ _ => "issues") (fun _ text => text)
      "get_concept_by_id" (Some [("id", Mcp.VNumber (Mcp.Finite (inject_Z (-3))))]).
Proof.
  intros api api'.
  apply (@only_validated_calls_reach_the_api string api api').
  intros call Hrange. destruct call; simpl in *; try reflexivity.
  destruct (Z.ltb_spec 0 id); [reflexivity | lia].
Defined.

Lemma integerValue_inject_Z (z : Z) :
  Mcp.integerValue (Mcp.Finite (inject_Z z)) = Some z.
Proof.
  unfold Mcp.integerValue, inject_Z. simpl.
  rewrite Z.mod_1_r, Z.div_1_r. reflexivity.
Qed.

(** X22. Omitted numbers get the defaults of the handler and supplied ones
    are forwarded as they are: a search without [limit] asks the API for 25
    results, a search with an integer [limit] for exactly that many, and a
    hierarchy expansion without levels asks for 5 child levels and 0 parent
    levels. *)
Theorem omitted_numbers_get_defaults
  (o : Mcp.Arguments) (call : Mcp.ApiCall) :
  (Mcp.property "limit" o = None ->
   Mcp.plan "search_concepts" (Some o) = inr call ->
   exists q options,
     call = Mcp.Search q options /\ Mcp.limit options = Some 25%Z) /\
  (forall l,
     Mcp.property "limit" o = Some (Mcp.VNumber (Mcp.Finite (inject_Z l))) ->
     Mcp.plan "search_concepts" (Some o) = inr call ->
     exists q options,
       call = Mcp.Search q options /\ Mcp.limit options = Some l) /\
  (Mcp.property "childLevels" o = None ->
   Mcp.property "parentLevels" o = None ->
   Mcp.plan "expand_concept_hierarchy" (Some o) = inr call ->
   exists i, call = Mcp.ExpandConcept i 5 0).
Proof.
  split; [|split].
  - intros Hlimit Hplan. unfold Mcp.plan in Hplan. simpl in Hplan.
    apply validated_call in Hplan. destruct Hplan as (input & Hparse & ->).
    unfold Mcp.parseSearchInput in Hparse. rewrite Hlimit in Hparse.
    destruct (Mcp.zString 1 500 (Mcp.property "query" o)); [|discriminate].
    destruct (Mcp.zOptionalString (Mcp.property "vocabulary_id" o)); [|discriminate].
    destruct (Mcp.zOptionalString (Mcp.property "standard_concept" o)); [|discriminate].
    destruct (Mcp.zOptionalString (Mcp.property "domain_id" o)); [|discriminate].
    destruct (Mcp.zOptionalString (Mcp.property "concept_class_id" o)); [|discriminate].
    simpl in Hparse. injection Hparse as <-. simpl. eauto.
  - intros l Hlimit Hplan. unfold Mcp.plan in Hplan. simpl in Hplan.
    apply validated_call in Hplan. destruct Hplan as (input & Hparse & ->).
    unfold Mcp.parseSearchInput in Hparse. rewrite Hlimit in Hparse.
    unfold Mcp.zOptionalInt, Mcp.zInt in Hparse.
    rewrite integerValue_inject_Z in Hparse.
    destruct (Mcp.zString 1 500 (Mcp.property "query" o)); [|discriminate].
    destruct (Mcp.zOptionalString (Mcp.property "vocabulary_id" o)); [|discriminate].
    destruct (Mcp.zOptionalString (Mcp.property "standard_concept" o)); [|discriminate].
    destruct (Mcp.zOptionalString (Mcp.property "domain_id" o)); [|discriminate].
    destruct (Mcp.zOptionalString (Mcp.property "concept_class_id" o)); [|discriminate].
    destruct (Z.leb 1 l && Z.leb l 150); [|discriminate].
    injection Hparse as <-. simpl. eauto.
  - intros Hchild Hparent Hplan. unfold Mcp.plan in Hplan. simpl in Hplan.
    apply validated_call in Hplan. destruct Hplan as (input & Hparse & ->).
    unfold Mcp.parseExpandConceptInput in Hparse.
    rewrite Hchild, Hparent in Hparse.
    destruct (Mcp.zPositiveInt (Mcp.property "id" o)); [|discriminate].
    simpl in Hparse. injection Hparse as <-. simpl. eauto.
Qed.

Lemma omitted_numbers_get_defaults_witness :
  (exists q options,
     Mcp.Search "diabetes" (Mcp.mkSearchOptions None None None None (Some 25%Z))
     = Mcp.Search q options /\ Mcp.limit options = Some 25%Z).
Proof.
  apply (proj1 (@omitted_numbers_get_defaults
                  [("query", Mcp.VString "diabetes")]
                  (Mcp.Search "diabetes"
                     (Mcp.mkSearchOptions None None None None (Some 25%Z))))).
  - reflexivity.
  - reflexivity.
Defined.

Lemma plan_unknown name args :
  ~ In name Mcp.toolNames -> Mcp.plan name args = inl (Mcp.UnknownTool name).
Proof.
  intros Hnot. unfold Mcp.plan.
  repeat match goal with
         | |- context [String.eqb name ?tool] =>
             destruct (String.eqb_spec name tool) as [->|_];
             [exfalso; apply Hnot; simpl; tauto|]
         end.
  reflexivity.
Qed.

(** X23. A tool name that is not one of the six tools is answered with
    the error [MethodNotFound] naming the tool, whatever the arguments and
    without consulting the API client. *)
Theorem unknown_tool_is_method_not_found
  (Payload : Type) (api : Mcp.ApiCall -> Mcp.Thrown + Payload)
  (zodMessage : string -> option Mcp.Arguments -> string)
  (answerText : Mcp.ApiCall -> Payload -> string)
  (name : string) (args : option Mcp.Arguments) :
  ~ In name Mcp.toolNames ->
  Mcp.callTool api zodMessage answerText name args
  = inl (Mcp.mkMcpError Mcp.MethodNotFound ("Unknown tool: " ++ name)).
Proof.
  intros Hnot. unfold Mcp.callTool. rewrite (plan_unknown args Hnot). reflexivity.
Qed.

Lemma unknown_tool_is_method_not_found_witness :
  Mcp.callTool (fun _ => inr "found") (fun _ _ => "issues") (fun _ text => text)
    "autocomplete" None
  = inl (Mcp.mkMcpError Mcp.MethodNotFound "Unknown tool: autocomplete").
Proof.
  apply (@unknown_tool_is_method_not_found string (fun _ => inr "found")
           (fun _ _ => "issues") (fun _ text => text) "autocomplete" None).
  simpl. intros H.
  repeat (destruct H as [H|H]; [discriminate H|]). exact H.
Defined.

(** X24. Every tool has a required argument: a call of one of the six
    tools with no arguments object, or with an empty one, is answered with
    the error [InvalidParams], whatever the API client would return. *)
Theorem missing_arguments_are_invalid_params
  (Payload : Type) (api : Mcp.ApiCall -> Mcp.Thrown + Payload)
  (zodMessage : string -> option Mcp.Arguments -> string)
  (answerText : Mcp.ApiCall -> Payload -> string)
  (name : string) (args : option Mcp.Arguments) :
  In name Mcp.toolNames ->
  args = None \/ args = Some [] ->
  Mcp.callTool api zodMessage answerText name args
  = inl (Mcp.mkMcpError Mcp.InvalidParams
           ("Invalid parameters: " ++ zodMessage name args)).
Proof.
  intros Hname Hargs. unfold Mcp.callTool.
  assert (Mcp.plan name args = inl Mcp.InvalidArguments) as ->; [|reflexivity].
  simpl in Hname.
  destruct Hname as [<-|[<-|[<-|[<-|[<-|[<-|[]]]]]]];
    destruct Hargs as [->| ->]; reflexivity.
Qed.

Lemma missing_arguments_are_invalid_params_witness :
  Mcp.callTool (fun _ => inr "found") (fun _ _ => "issues") (fun _ text => text)
    "get_concept_by_id" (Some [])
  = inl (Mcp.mkMcpError Mcp.InvalidParams "Invalid parameters: issues").
Proof.
  apply (@missing_arguments_are_invalid_params string (fun _ => inr "found")
           (fun _ _ => "issues") (fun _ text => text) "get_concept_by_id"
           (Some [])).
  - simpl. right. left. reflexivity.
  - right. reflexivity.
Defined.
